(** * Reverse-tunnel file download: client and server

  A shallow embedding of [client.py] (the on-premise client that streams a
  file in chunks over a WebSocket) and of [server.py] (the cloud server
  that keeps the registry of connected clients, the table of downloads and
  the destination files), followed by the properties of the protocol.

  Conventions of the embedding:
  - a Python [bytes] value is a [list byte]; a Python [str] carrying a
    payload is the list of its Unicode code points ([list N]); identifiers
    and paths are [string]s;
  - a Python [int] is a [Z], and [//] is [Z.div] (both round to minus
    infinity);
  - a JSON message is a tagged record; [data.get(k)] is an [option], [None]
    when the key is missing, and a field that is present has the type that
    the protocol gives it.  The [download_id] is the exception: the server
    tests it against the keys of a [dict] whatever it is, so that [ident]
    keeps apart the strings, the other JSON values that can be hashed, and
    the arrays and objects, on which the test raises.  The JSON text itself
    (written by [send_json], read by [json.loads]) is library code and is
    taken to transport these records unchanged;
  - a [dict] is a [gmap]; the server's disk is a [gmap] from paths to
    contents; the client's disk is a [gmap] from the paths that exist,
    written as [pathlib] prints them, to what they name, a regular file or
    a directory;
  - an exception is a value of [exn] returned next to the state reached when
    it was raised;
  - on the client, the disk is taken not to change while a file is sent, a
    regular file is taken to be readable, and every [print] and every
    [send_json] is taken to succeed: the only exceptions of the client are
    those of its own computations and of [open] and [read]. *)

From Stdlib Require Import ZArith.
From Stdlib Require QArith Qround.
From Stdlib.Strings Require Import Byte.
From stdpp Require Import gmap strings list fin_maps.
From Equations Require Import Equations.

Local Open Scope Z_scope.

(** ** Exceptions raised by the two programs *)

Inductive exn :=
| FileNotFoundError (path : string)
| ZeroDivisionError
| AttributeError
| UnicodeEncodeError
| TypeError
| ConnectionResetError
| ValueError
| IsADirectoryError (strerror : string).

(** [str(e)] as sent back in an [error] message or in a response.  The
    programs print this way only what [send_file] and [send_json] raise;
    the text of [IsADirectoryError] is the one of the operating system,
    kept with the directory. *)
Definition str_exn (e : exn) : string :=
match e with
| FileNotFoundError p => "File not found: " +:+ p
| ZeroDivisionError => "integer division or modulo by zero"
| AttributeError => "'NoneType' object has no attribute 'encode'"
| UnicodeEncodeError => "'latin-1' codec can't encode character"
| TypeError => "unsupported format string passed to NoneType.__format__"
| ConnectionResetError => "Cannot write to closing transport"
| ValueError => "read length must be non-negative or -1"
| IsADirectoryError strerror => strerror
end.

(** ** Message codec *)

Module Codec.

(** [chunk.decode('latin1')]: byte [b] becomes the code point [b]. *)
Definition decode_latin1 (chunk : list byte) : list N :=
  Byte.to_N <$> chunk.

(** [chunk_data.encode('latin1')]: a code point below 256 becomes that
    byte; any other one raises [UnicodeEncodeError] ([None]). *)
Definition encode_latin1 (chunk_data : list N) : option (list byte) :=
  mapM Byte.of_N chunk_data.

(** The value of the field ['download_id'] of a message: a string, or
    [None] when the key is missing or null; or another JSON value, which
    Python can hash (a number, a boolean) or cannot (an array, an object),
    given by its JSON text. *)
Inductive ident :=
| ident_of (k : option string)
| ident_other (json : string)
| ident_unhashable (json : string).

#[warning="-uniform-inheritance"]
Coercion ident_of : option >-> ident.

(** The messages of the tunnel, by their ['type'] field. *)
Inductive msg :=
| register (client_id : option string)
| registered (message : string)
| download_request (download_id : ident) (file_path : option string)
| file_chunk (download_id : ident) (chunk_num : option Z)
    (total_chunks : option Z) (data : option (list N))
| file_complete (download_id : ident) (total_size : option Z)
    (total_chunks : option Z)
| error (download_id : ident) (message : option string)
| ping
| pong
| other (type : option string).

(** Number of payload bytes a message carries. *)
Definition payload_length (m : msg) : Z :=
  match m with
  | file_chunk _ _ _ (Some data) => Z.of_nat (length data)
  | _ => 0
  end.

End Codec.
Export Codec.

(** ** The client: [FileDownloadClient] *)

Module Client.

(** What a path names on the client's disk: a regular file with its
    content, or a directory with the size that [stat] gives for it and the
    text of the error that [open] raises on it.  Other kinds of files
    (devices, pipes) are left out. *)
Inductive node :=
| regular (content : list byte)
| directory (size : Z) (strerror : string).

(** [file_path.stat().st_size] *)
Definition st_size (f : node) : Z :=
  match f with
  | regular content => Z.of_nat (length content)
  | directory size _ => size
  end.

(** [f.read(n)] on the unread rest of a file opened with ['rb']: the bytes
    returned and the rest left.  [-1] reads to the end of the file, and a
    size below [-1] raises [ValueError]. *)
Definition read (n : Z) (rest : list byte) : exn + list byte * list byte :=
  if n <? -1 then inl ValueError
  else if n <? 0 then inr (rest, [])
  else inr (take (Z.to_nat n) rest, drop (Z.to_nat n) rest).

Definition inspect {A} (a : A) : {b | a = b} := exist _ a eq_refl.

(** [total_chunks = (file_size + self.chunk_size - 1) // self.chunk_size] *)
Definition total_chunks (file_size chunk_size : Z) : Z :=
  (file_size + chunk_size - 1) / chunk_size.

(** The [while True] loop of [send_file]: [rest] is what the file object
    has not yet returned, [chunk_num] and [bytes_sent] are the two
    counters.  The result is the final counters, the [file_chunk]
    messages sent, in order, and the exception that ended the loop, if
    any. *)
Equations? send_loop (chunk_size : Z) (download_id : ident)
    (total : Z) (rest : list byte) (chunk_num bytes_sent : Z)
    : Z * Z * list msg * option exn by wf (length rest) lt :=
  send_loop chunk_size download_id total rest chunk_num bytes_sent
    with inspect (read chunk_size rest) := {
    | exist _ (inl e) _ => (chunk_num, bytes_sent, [], Some e)
    | exist _ (inr ([], _)) _ => (chunk_num, bytes_sent, [], None)
    | exist _ (inr (c :: chunk, rest')) _ =>
        let chunk_num := chunk_num + 1 in
        let bytes_sent := bytes_sent + Z.of_nat (length (c :: chunk)) in
        let chunk_data := decode_latin1 (c :: chunk) in
        let m := file_chunk download_id (Some chunk_num) (Some total)
                   (Some chunk_data) in
        let '(n, b, ms, e) :=
          send_loop chunk_size download_id total rest' chunk_num bytes_sent in
        (n, b, m :: ms, e) }.
Proof.
match goal with H : read _ _ = _ |- _ => revert H end.
unfold read. destruct (chunk_size <? -1); [discriminate|].
destruct (chunk_size <? 0); intros H; inversion H; subst; simpl.
- lia.
- rewrite length_drop.
  destruct (Z.to_nat chunk_size); [discriminate|].
  destruct rest; [discriminate|]. simpl. lia.
Qed.

Section Paths.
(** [str(Path(p))], the text of the [pathlib] path made from [p]. *)
Variable path_str : string → string.
(** [os.path.expanduser (os.path.expandvars p)], which depends on the
    environment of the client process. *)
Variable expand : string → string.

(** [send_file]: the client's disk maps the paths that exist to what they
    name.  Returns the messages sent and the exception raised, if any.
    [open] raises on a directory, after [total_chunks] was computed. *)
Definition send_file (chunk_size : Z) (disk : gmap string node)
    (download_id : ident) (file_path : string)
    : list msg * option exn :=
  let file_path := path_str file_path in
  match disk !! file_path with
  | None => ([], Some (FileNotFoundError file_path))
  | Some f =>
      let file_size := st_size f in
      if chunk_size =? 0 then ([], Some ZeroDivisionError)
      else
        let total := total_chunks file_size chunk_size in
        match f with
        | directory _ strerror => ([], Some (IsADirectoryError strerror))
        | regular content =>
            match send_loop chunk_size download_id total content 0 0 with
            | (chunk_num, bytes_sent, ms, Some e) => (ms, Some e)
            | (chunk_num, bytes_sent, ms, None) =>
                (ms ++ [file_complete download_id (Some file_size)
                          (Some chunk_num)], None)
            end
        end
  end.

(** [handle_download_request]: every exception of [send_file] is caught
    and reported in an [error] message.  A request without a path makes
    [expandvars] raise before the [try]. *)
Definition handle_download_request (chunk_size : Z)
    (disk : gmap string node) (download_id : ident)
    (file_path : option string) : list msg * option exn :=
  match file_path with
  | None => ([], Some TypeError)
  | Some file_path =>
      match send_file chunk_size disk download_id (expand file_path) with
      | (ms, None) => (ms, None)
      | (ms, Some e) =>
          (ms ++ [error download_id (Some (str_exn e))], None)
      end
  end.
End Paths.

(** *** The rest of the client: the WebSocket URL and the message loop *)

(** [s[n:]] *)
Fixpoint drop_string (n : nat) (s : string) : string :=
  match n, s with
  | S n, String _ s => drop_string n s
  | _, _ => s
  end.

(** [s.replace("", new)]: [new] before every character and at the end. *)
Fixpoint replace_empty (new s : string) : string :=
  match s with
  | EmptyString => new
  | String c s => new +:+ String c (replace_empty new s)
  end.

(** [s.replace(old, new)] for a non-empty [old]: the occurrences of [old]
    are found from left to right and do not overlap. *)
Equations? replace_from (old new s : string) : string
    by wf (String.length s) lt :=
  replace_from old new EmptyString := EmptyString;
  replace_from old new (String c s)
    with inspect (String.prefix old (String c s)) := {
    | exist _ true _ =>
        new +:+ replace_from old new (drop_string (String.length old - 1) s)
    | exist _ false _ => String c (replace_from old new s) }.
Proof.
generalize (String.length old - 1)%nat. clear.
intros n. revert s. induction n as [|n IH]; intros [|a s]; simpl; try lia.
specialize (IH s). lia.
Qed.

(** [s.replace(old, new)] *)
Definition replace (old new s : string) : string :=
  match old with
  | EmptyString => replace_empty new s
  | _ => replace_from old new s
  end.

(** The [ws_url] of [connect]. *)
Definition ws_url (server_url : string) : string :=
  replace "https://" "wss://" (replace "http://" "ws://" server_url) +:+ "/ws".

(** What the iteration over the WebSocket yields: a text message, already
    parsed, or a message of another type. *)
Inductive frame :=
| TEXT (data : msg)
| CLOSED
| ERROR
| BINARY.

Section Session.
Variable path_str : string → string.
Variable expand : string → string.
Variable chunk_size : Z.
(** The client's disk, which the client does not change. *)
Variable disk : gmap string node.

(** [message_loop]: the messages that the client sends while it reads
    [frames].  The loop ends at [CLOSED] and at [ERROR], and also when
    [handle_download_request] raises, which the [except] of the loop
    catches. *)
Fixpoint message_loop (frames : list frame) : list msg :=
  match frames with
  | [] => []
  | TEXT (download_request download_id file_path) :: frames =>
      match handle_download_request path_str expand chunk_size disk
              download_id file_path with
      | (ms, None) => ms ++ message_loop frames
      | (ms, Some _) => ms
      end
  | TEXT ping :: frames => pong :: message_loop frames
  | TEXT _ :: frames => message_loop frames
  | CLOSED :: _ => []
  | ERROR :: _ => []
  | BINARY :: frames => message_loop frames
  end.

(** [connect]: when [ws_connect] succeeds the client registers and then
    runs its loop; when it fails nothing is sent. *)
Definition connect (client_id : string) (connected : bool)
    (frames : list frame) : list msg :=
  if connected then register (Some client_id) :: message_loop frames else [].
End Session.

End Client.

(** ** The server: [FileDownloadServer] *)

Module Server.

(** The ['status'] of a download. *)
Inductive status := downloading | completed | failed.

(** A value of [datetime.utcnow()]. *)
Record datetime := {
  year : nat; month : nat; day : nat;
  hour : nat; minute : nat; second : nat; microsecond : nat }.

Definition digit (n : nat) : string :=
  String (Ascii.ascii_of_nat (48 + n mod 10)) EmptyString.

Definition digits2 (n : nat) : string := digit (n / 10) +:+ digit n.

Definition digits4 (n : nat) : string := digits2 (n / 100) +:+ digits2 n.

(** [now.strftime('%Y%m%d_%H%M%S')] *)
Definition strftime (now : datetime) : string :=
  digits4 (year now) +:+ digits2 (month now) +:+ digits2 (day now) +:+ "_"
  +:+ digits2 (hour now) +:+ digits2 (minute now) +:+ digits2 (second now).

(** An entry of [self.downloads].  The timestamps are kept as [datetime]
    values instead of their [isoformat()] text; a key that the dict does
    not have yet, or that holds [None], is [None]. *)
Record download_info := {
  d_download_id : string;
  d_client_id : string;
  d_file_path : string;
  d_remote_path : string;
  d_status : status;
  d_started_at : datetime;
  d_chunks_received : option Z;
  d_completed_at : option datetime;
  d_total_size : option Z;
  d_error : option string }.

Definition set_chunks_received (chunk_num : option Z) (d : download_info) :=
  {| d_download_id := d_download_id d; d_client_id := d_client_id d;
     d_file_path := d_file_path d; d_remote_path := d_remote_path d;
     d_status := d_status d; d_started_at := d_started_at d;
     d_chunks_received := chunk_num;
     d_completed_at := d_completed_at d; d_total_size := d_total_size d;
     d_error := d_error d |}.

Definition set_completed (now : datetime) (total_size : option Z)
    (d : download_info) :=
  {| d_download_id := d_download_id d; d_client_id := d_client_id d;
     d_file_path := d_file_path d; d_remote_path := d_remote_path d;
     d_status := completed; d_started_at := d_started_at d;
     d_chunks_received := d_chunks_received d;
     d_completed_at := Some now; d_total_size := total_size;
     d_error := d_error d |}.

Definition set_failed (error_msg : option string) (d : download_info) :=
  {| d_download_id := d_download_id d; d_client_id := d_client_id d;
     d_file_path := d_file_path d; d_remote_path := d_remote_path d;
     d_status := failed; d_started_at := d_started_at d;
     d_chunks_received := d_chunks_received d;
     d_completed_at := d_completed_at d; d_total_size := d_total_size d;
     d_error := error_msg |}.

(** The server object together with what it acts on: the registry
    [connected_clients] (a WebSocket is named by a number), the table
    [downloads], the files on the server's disk, the messages sent on each
    WebSocket and the WebSockets that are closed. *)
Record server := {
  connected_clients : gmap (option string) nat;
  downloads : gmap string download_info;
  files : gmap string (list byte);
  sent : list (nat * msg);
  closed : gset nat }.

Definition set_connected_clients (r : gmap (option string) nat) (s : server) :=
  {| connected_clients := r; downloads := downloads s; files := files s;
     sent := sent s; closed := closed s |}.

Definition set_downloads (d : gmap string download_info) (s : server) :=
  {| connected_clients := connected_clients s; downloads := d;
     files := files s; sent := sent s; closed := closed s |}.

Definition set_files (f : gmap string (list byte)) (s : server) :=
  {| connected_clients := connected_clients s; downloads := downloads s;
     files := f; sent := sent s; closed := closed s |}.

(** [await ws.send_json(m)]: writing to a closed WebSocket raises. *)
Definition send_json (ws : nat) (m : msg) (s : server) : server * option exn :=
  if decide (ws ∈ closed s) then (s, Some ConnectionResetError)
  else ({| connected_clients := connected_clients s; downloads := downloads s;
           files := files s; sent := sent s ++ [(ws, m)];
           closed := closed s |}, None).

(** The test [download_id in self.downloads] followed by
    [self.downloads[download_id]]: the key and its record, [None] when the
    key is not in the dict, whose keys are all strings, or the [TypeError]
    that the test raises on a value that cannot be hashed. *)
Definition lookup_download (download_id : ident) (s : server)
    : exn + option (string * download_info) :=
  match download_id with
  | ident_unhashable _ => inl TypeError
  | ident_other _ => inr None
  | ident_of None => inr None
  | ident_of (Some k) => inr (match downloads s !! k with
                              | None => None
                              | Some info => Some (k, info)
                              end)
  end.

(** [open(file_path, 'ab')] creates the file when it does not exist. *)
Definition open_ab (file_path : string) (s : server) : server :=
  set_files (<[file_path := default [] (files s !! file_path)]> (files s)) s.

(** [f.write(b)] on a file opened for appending. *)
Definition write_ab (file_path : string) (b : list byte) (s : server) : server :=
  set_files (<[file_path := default [] (files s !! file_path) ++ b]> (files s)) s.

(** [handle_file_chunk] *)
Definition handle_file_chunk (download_id : ident)
    (chunk_data : option (list N)) (chunk_num : option Z) (s : server)
    : server * option exn :=
  match lookup_download download_id s with
  | inl e => (s, Some e)
  | inr None => (s, None)
  | inr (Some (k, download_info)) =>
      let file_path := d_file_path download_info in
      let s := open_ab file_path s in
      match chunk_data with
      | None => (s, Some AttributeError)
      | Some chunk_data =>
          match encode_latin1 chunk_data with
          | None => (s, Some UnicodeEncodeError)
          | Some b =>
              let s := write_ab file_path b s in
              (set_downloads
                 (<[k := set_chunks_received chunk_num download_info]>
                    (downloads s)) s, None)
          end
      end
  end.

(** [handle_file_complete]; the last [print] formats [total_size] with
    [:,], which raises when the message has no [total_size]. *)
Definition handle_file_complete (now : datetime) (download_id : ident)
    (total_size : option Z) (s : server) : server * option exn :=
  match lookup_download download_id s with
  | inl e => (s, Some e)
  | inr None => (s, None)
  | inr (Some (k, download_info)) =>
      let s := set_downloads
                 (<[k := set_completed now total_size download_info]>
                    (downloads s)) s in
      match total_size with
      | None => (s, Some TypeError)
      | Some _ => (s, None)
      end
  end.

(** [handle_client_error] *)
Definition handle_client_error (download_id : ident)
    (error_msg : option string) (s : server) : server * option exn :=
  match lookup_download download_id s with
  | inl e => (s, Some e)
  | inr None => (s, None)
  | inr (Some (k, download_info)) =>
      (set_downloads (<[k := set_failed error_msg download_info]> (downloads s)) s,
       None)
  end.

(** The local state of one run of [websocket_handler]: its WebSocket and
    its variable [client_id]. *)
Record connection := { ws : nat; client_id : option string }.

(** Python truth of a [client_id]: neither [None] nor the empty string. *)
Definition truthy (client_id : option string) : bool :=
  match client_id with
  | None => false
  | Some c => negb (String.eqb c "")
  end.

(** One text message of the [async for] loop of [websocket_handler]. *)
Definition on_message (now : datetime) (m : msg) (c : connection) (s : server)
    : connection * server * option exn :=
  match m with
  | register client_id =>
      let c := {| ws := ws c; client_id := client_id |} in
      let s := set_connected_clients
                 (<[client_id := ws c]> (connected_clients s)) s in
      let '(s, e) := send_json (ws c) (registered "Successfully registered") s in
      (c, s, e)
  | file_chunk download_id chunk_num _ data =>
      let '(s, e) := handle_file_chunk download_id data chunk_num s in (c, s, e)
  | file_complete download_id total_size _ =>
      let '(s, e) := handle_file_complete now download_id total_size s in
      (c, s, e)
  | error download_id message =>
      let '(s, e) := handle_client_error download_id message s in (c, s, e)
  | _ => (c, s, None)
  end.

(** The [finally] block of [websocket_handler], after which the WebSocket
    is closed. *)
Definition on_disconnect (c : connection) (s : server) : server :=
  let r :=
    if truthy (client_id c) && bool_decide (is_Some (connected_clients s !! client_id c))
    then delete (client_id c) (connected_clients s)
    else connected_clients s in
  {| connected_clients := r; downloads := downloads s; files := files s;
     sent := sent s; closed := {[ ws c ]} ∪ closed s |}.

(** The [async for] loop over the messages received, each with the time
    at which it is handled; an exception of a handler leaves the loop. *)
Fixpoint message_loop (ms : list (datetime * msg)) (c : connection) (s : server)
    : connection * server * option exn :=
  match ms with
  | [] => (c, s, None)
  | (now, m) :: ms =>
      match on_message now m c s with
      | (c, s, None) => message_loop ms c s
      | (c, s, Some e) => (c, s, Some e)
      end
  end.

(** [websocket_handler] for a connection that receives [ms] and is then
    closed. *)
Definition websocket_handler (ws : nat) (ms : list (datetime * msg)) (s : server)
    : server * option exn :=
  let '(c, s, e) := message_loop ms {| ws := ws; client_id := None |} s in
  (on_disconnect c s, e).

(** The JSON body and the HTTP status of a [web.json_response]. *)
Inductive body :=
| error_body (error : string)
| success_body (download_id : string) (message : string).

Record response := { resp_body : body; resp_status : Z }.

(** [local_filename] of [trigger_download] *)
Definition local_filename (client_id : string) (now : datetime) : string :=
  client_id +:+ "_" +:+ strftime now +:+ "_file_to_download.txt".

Section TriggerDownload.
(** [str(self.download_dir / name)], the join of [pathlib]. *)
Variable path_join : string → string → string.
(** [self.download_dir] *)
Variable download_dir : string.

(** [trigger_download] for a request body with the fields [client_id] and
    [file_path]; [uuid4] is the value of [str(uuid.uuid4())], [now1] and
    [now2] those of the two calls of [datetime.utcnow()]. *)
Definition trigger_download (client_id file_path : option string)
    (uuid4 : string) (now1 now2 : datetime) (s : server) : server * response :=
  let file_path := default "$HOME/file_to_download.txt" file_path in
  if negb (truthy client_id) then
    (s, {| resp_body := error_body "client_id is required"; resp_status := 400 |})
  else
    match connected_clients s !! client_id with
    | None =>
        (s, {| resp_body :=
                 error_body ("Client " +:+ default "" client_id +:+ " is not connected");
               resp_status := 404 |})
    | Some ws =>
        let client := default "" client_id in
        let download_id := uuid4 in
        let local_path := path_join download_dir (local_filename client now1) in
        let info :=
          {| d_download_id := download_id; d_client_id := client;
             d_file_path := local_path; d_remote_path := file_path;
             d_status := downloading; d_started_at := now2;
             d_chunks_received := Some 0; d_completed_at := None;
             d_total_size := None; d_error := None |} in
        let s := set_downloads (<[download_id := info]> (downloads s)) s in
        match send_json ws (download_request (Some download_id) (Some file_path)) s with
        | (s, Some e) =>
            (s, {| resp_body := error_body (str_exn e); resp_status := 500 |})
        | (s, None) =>
            (s, {| resp_body :=
                     success_body download_id
                       ("Download request sent to client " +:+ client);
                   resp_status := 200 |})
        end
    end.
End TriggerDownload.

(** The error [ClientNotConnected] of the dispatch: status 404 with the
    message of [trigger_download]. *)
Definition ClientNotConnected (client_id : string) : response :=
  {| resp_body := error_body ("Client " +:+ client_id +:+ " is not connected");
     resp_status := 404 |}.

(** The error [MissingField] of the dispatch. *)
Definition MissingField : response :=
  {| resp_body := error_body "client_id is required"; resp_status := 400 |}.

(** *** The rest of the server: the read-only endpoints and the poller *)

#[global] Instance status_eq_dec : EqDecision status.
Proof. solve_decision. Defined.

(** The fields [connected_clients] and [active_downloads] of the body of
    [health_check]. *)
Definition health_check (s : server) : nat * nat :=
  (size (connected_clients s),
   length (filter (λ d, d_status d = downloading)
             (map_to_list (downloads s)).*2)).

(** The [client_id]s of [list_clients].  The order in which a [dict]
    enumerates its keys is not kept by [gmap]. *)
Definition list_clients (s : server) : list (option string) :=
  (map_to_list (connected_clients s)).*1.

(** [get_download_status]: the record, or [None] for the 404 answer. *)
Definition get_download_status (download_id : string) (s : server)
    : option download_info :=
  downloads s !! download_id.

(** One round of [poll_download_status]: the answer to the GET is 200 with
    the record, or another status, or the request raises. *)
Inductive reply :=
| reply_200 (status_data : download_info)
| reply_other
| reply_raised.

(** How the polling went, for the replies known so far. *)
Inductive polled :=
| poll_completed (status_data : download_info)
| poll_failed (status_data : download_info)
| poll_exception
| polling.

(** [poll_download_status] on the successive replies of the server: how
    the loop went and how many times it slept. *)
Fixpoint poll_download_status (replies : list reply) : polled * nat :=
  match replies with
  | [] => (polling, 0%nat)
  | reply_raised :: _ => (poll_exception, 0%nat)
  | reply_other :: replies =>
      let '(r, n) := poll_download_status replies in (r, S n)
  | reply_200 status_data :: replies =>
      match d_status status_data with
      | completed => (poll_completed status_data, 0%nat)
      | failed => (poll_failed status_data, 0%nat)
      | downloading =>
          let '(r, n) := poll_download_status replies in (r, S n)
      end
  end.

(** The reply of the server in state [s] to a GET for [download_id]. *)
Definition reply_of (download_id : string) (s : server) : reply :=
  match get_download_status download_id s with
  | Some status_data => reply_200 status_data
  | None => reply_other
  end.

End Server.

(** ** Auxiliary notions for the statements *)

(** The [file_chunk] messages for the chunks [chunks], numbered from
    [n + 1]. *)
Fixpoint chunk_msgs (download_id : ident) (total n : Z)
    (chunks : list (list byte)) : list msg :=
  match chunks with
  | [] => []
  | chunk :: chunks =>
      file_chunk download_id (Some (n + 1)) (Some total)
        (Some (decode_latin1 chunk))
      :: chunk_msgs download_id total (n + 1) chunks
  end.

(** Sum of the payload lengths of a sequence of messages. *)
Definition total_payload (ms : list msg) : Z :=
  foldr (λ m acc, payload_length m + acc) 0 ms.

(** [s'] is [s] after [b] was appended to the destination file of the
    download [k], whose record was [info] and now has [chunks_received]
    equal to [received]; nothing else differs. *)
Definition appended (k : string) (info : Server.download_info)
    (b : list byte) (received : option Z) (s s' : Server.server) : Prop :=
  Server.connected_clients s' = Server.connected_clients s
  ∧ Server.sent s' = Server.sent s
  ∧ Server.closed s' = Server.closed s
  ∧ (∀ k', k' ≠ k → Server.downloads s' !! k' = Server.downloads s !! k')
  ∧ Server.downloads s' !! k = Some (Server.set_chunks_received received info)
  ∧ (∀ p, p ≠ Server.d_file_path info →
       Server.files s' !! p = Server.files s !! p)
  ∧ default [] (Server.files s' !! Server.d_file_path info)
    = default [] (Server.files s !! Server.d_file_path info) ++ b.

(** Two times of the same second. *)
Definition same_second (t t' : Server.datetime) : Prop :=
  Server.year t = Server.year t' ∧ Server.month t = Server.month t'
  ∧ Server.day t = Server.day t' ∧ Server.hour t = Server.hour t'
  ∧ Server.minute t = Server.minute t' ∧ Server.second t = Server.second t'.

(** [chunks_received] after the chunks [chunks], numbered from [n + 1]. *)
Definition received_after (n : Z) (chunks : list (list byte))
    (before : option Z) : option Z :=
  match chunks with
  | [] => before
  | _ => Some (n + Z.of_nat (length chunks))
  end.

(** The fields of a record that identify the download and its
    destination. *)
Definition same_download (d d' : Server.download_info) : Prop :=
  Server.d_download_id d' = Server.d_download_id d
  ∧ Server.d_client_id d' = Server.d_client_id d
  ∧ Server.d_file_path d' = Server.d_file_path d
  ∧ Server.d_remote_path d' = Server.d_remote_path d
  ∧ Server.d_started_at d' = Server.d_started_at d.

(** A message that ends a transfer for [download_id]. *)
Definition is_signal (download_id : ident) (m : msg) : Prop :=
  match m with
  | file_complete id _ _ => id = download_id
  | error id _ => id = download_id
  | _ => False
  end.

(** A chunk message for [download_id]. *)
Definition is_chunk (download_id : ident) (m : msg) : Prop :=
  match m with
  | file_chunk id _ _ (Some _) => id = download_id
  | _ => False
  end.

(** The client's loop reads all of [frames]: none of them closes the
    connection, and no request lacks its path. *)
Definition runs_through (frames : list Client.frame) : Prop :=
  Forall (λ f, f ≠ Client.CLOSED ∧ f ≠ Client.ERROR
               ∧ ∀ id, f ≠ Client.TEXT (download_request id None)) frames.

Definition is_ping (f : Client.frame) : bool :=
  match f with Client.TEXT ping => true | _ => false end.

Definition is_pong (m : msg) : bool :=
  match m with pong => true | _ => false end.

(** [old] occurs in [s]. *)
Fixpoint occurs (old s : string) : bool :=
  String.prefix old s
  || match s with
     | EmptyString => false
     | String _ s => occurs old s
     end.

(** The base name of a path, which the specification speaks of and the
    server never computes: what follows the last ["/"], as
    [os.path.basename] gives it. *)
Fixpoint basename (p : string) : string :=
  match p with
  | EmptyString => EmptyString
  | String _ rest => if occurs "/" p then basename rest else p
  end.

(** A message other than [register]. *)
Definition not_register (tm : Server.datetime * msg) : Prop :=
  ∀ client_id, tm.2 ≠ register client_id.

(** What a reply makes [poll_download_status] conclude, if anything. *)
Definition reply_final (r : Server.reply) : option Server.polled :=
  match r with
  | Server.reply_raised => Some Server.poll_exception
  | Server.reply_other => None
  | Server.reply_200 d =>
      match Server.d_status d with
      | Server.completed => Some (Server.poll_completed d)
      | Server.failed => Some (Server.poll_failed d)
      | Server.downloading => None
      end
  end.

(** The number of records of a table that are in state [downloading]. *)
Definition active_downloads (m : gmap string Server.download_info) : nat :=
  length (filter (λ d, Server.d_status d = Server.downloading)
            (map_to_list m).*2).

(** 1 for a record in state [downloading], 0 for another one. *)
Definition active (d : Server.download_info) : nat :=
  if decide (Server.d_status d = Server.downloading) then 1%nat else 0%nat.

(** The fields of a time are in the ranges that [strftime] prints in
    full: a year of four digits, every other field of at most two. *)
Definition in_range (t : Server.datetime) : Prop :=
  (1000 ≤ Server.year t ∧ Server.year t / 100 < 100
   ∧ Server.month t < 100 ∧ Server.day t < 100
   ∧ Server.hour t < 100 ∧ Server.minute t < 100 ∧ Server.second t < 100)%nat.


(** ** A small scenario used to instantiate the statements *)

Module Scenario.
Import Server.

Definition t0 : datetime :=
  {| year := 2024; month := 5; day := 17;
     hour := 9; minute := 30; second := 12; microsecond := 250 |}.

(** A later instant of the same second. *)
Definition t1 : datetime :=
  {| year := 2024; month := 5; day := 17;
     hour := 9; minute := 30; second := 12; microsecond := 980 |}.

(** The first instant of the next second. *)
Definition t2 : datetime :=
  {| year := 2024; month := 5; day := 17;
     hour := 9; minute := 30; second := 13; microsecond := 0 |}.

(** [str(Path(d) / name)] for a relative [name] without dots. *)
Definition join (d name : string) : string := d +:+ "/" +:+ name.

Definition info0 : download_info :=
  {| d_download_id := "d1"; d_client_id := "site-7";
     d_file_path := "downloads/site-7_20240517_093012_file_to_download.txt";
     d_remote_path := "$HOME/report.csv";
     d_status := downloading; d_started_at := t0;
     d_chunks_received := Some 0; d_completed_at := None;
     d_total_size := None; d_error := None |}.

(** One client, ["site-7"], connected on WebSocket 1, and one download
    dispatched to it. *)
Definition s0 : server :=
  {| connected_clients := {[ Some "site-7" := 1%nat ]};
     downloads := {[ "d1" := info0 ]};
     files := ∅; sent := []; closed := ∅ |}.

Definition c1 : connection := {| ws := 1; client_id := Some "site-7" |}.

(** The client's disk: a directory and, in it, a file of five bytes.  Its
    paths are written as [pathlib] prints them. *)
Definition disk0 : gmap string Client.node :=
  {[ "/home/u/report.csv" := Client.regular ["a"; "b"; "c"; "d"; "e"]%byte;
     "/home/u" :=
       Client.directory 4096 "[Errno 21] Is a directory: '/home/u'" ]}.

(** What [send_file] sends for it in chunks of two bytes. *)
Definition sent0 : list msg :=
  [file_chunk (Some "d1") (Some 1) (Some 3) (Some [97; 98]%N);
   file_chunk (Some "d1") (Some 2) (Some 3) (Some [99; 100]%N);
   file_chunk (Some "d1") (Some 3) (Some 3) (Some [101]%N);
   file_complete (Some "d1") (Some 5) (Some 3)].

(** The record of ["d1"] after the client reported an error. *)
Definition info_failed : download_info := set_failed (Some "disk error") info0.

(** The server after it handled that [error] message. *)
Definition s_failed : server :=
  (handle_client_error (Some "d1") (Some "disk error") s0).1.

(** The record of ["d1"] after [file_complete]. *)
Definition info_completed : download_info :=
  set_completed t0 (Some 5) (set_chunks_received (Some 3) info0).

(** The server after the transfer of [sent0]. *)
Definition s_completed : server :=
  (message_loop ((λ m, (t0, m)) <$> sent0) c1 s0).1.2.

(** A second WebSocket on which ["site-7"] registers again. *)
Definition c2 : connection := {| ws := 2; client_id := None |}.

(** The server after ["site-7"] registered on WebSocket 2 and replaced the
    entry of WebSocket 1. *)
Definition s_replaced : server :=
  (on_message t0 (register (Some "site-7")) c2 s0).1.2.

End Scenario.

(** ** The codec and the client's loop *)

Lemma latin1_roundtrip (chunk : list byte) :
  encode_latin1 (decode_latin1 chunk) = Some chunk.
Proof.
  unfold encode_latin1, decode_latin1.
  apply mapM_fmap_Some. exact Byte.of_to_N.
Qed.

Lemma length_decode_latin1 (chunk : list byte) :
  length (decode_latin1 chunk) = length chunk.
Proof. unfold decode_latin1. apply length_fmap. Qed.

Lemma read_concat n rest chunk rest' :
  Client.read n rest = inr (chunk, rest') → chunk ++ rest' = rest.
Proof.
  unfold Client.read. destruct (n <? -1); [discriminate|].
  destruct (n <? 0); intros H; inversion H; subst.
  - apply app_nil_r.
  - apply take_drop.
Qed.

Lemma read_nil n rest rest' :
  n ≠ 0 → Client.read n rest = inr ([], rest') → rest = [].
Proof.
  unfold Client.read. intros Hn.
  destruct rest as [|x rest]; [reflexivity|].
  destruct (n <? -1); [discriminate|].
  destruct (n <? 0) eqn:E; [discriminate|].
  destruct (Z.to_nat n) eqn:En; [lia|]. discriminate.
Qed.

Lemma read_raises n rest e :
  Client.read n rest = inl e → n < -1 ∧ e = ValueError.
Proof.
  unfold Client.read. destruct (n <? -1) eqn:E.
  - intros H; inversion H. split; [lia|done].
  - by destruct (n <? 0).
Qed.

(** What the loop sends is the numbered list of the pieces of the file. *)
Lemma send_loop_chunks chunk_size download_id total rest n b :
  -1 ≤ chunk_size → chunk_size ≠ 0 →
  ∃ chunks,
    Client.send_loop chunk_size download_id total rest n b
    = (n + Z.of_nat (length chunks), b + Z.of_nat (length rest),
       chunk_msgs download_id total n chunks, None)
    ∧ concat chunks = rest.
Proof.
  intros Hge Hcs.
  funelim (Client.send_loop chunk_size download_id total rest n b).
  - match goal with e : Client.read _ _ = inl _ |- _ =>
      pose proof (read_raises _ _ _ e) as [? _] end. lia.
  - exists []. simpl. rewrite (read_nil _ _ _ Hcs e). simpl.
    split; [|reflexivity]. f_equal. f_equal. f_equal; lia.
  - match goal with IH : _ → _ → ∃ _, _ |- _ =>
      destruct (IH Hge Hcs) as (chunks & -> & Hc) end.
    exists ((c :: chunk) :: chunks). simpl. split.
    + f_equal. f_equal. f_equal.
      * lia.
      * rewrite <- (read_concat _ _ _ _ e). simpl. rewrite length_app. lia.
    + rewrite Hc. exact (read_concat _ _ _ _ e).
Qed.

(** On a file with nothing left to read the loop sends nothing. *)
Lemma send_loop_nil chunk_size download_id total n b :
  -1 ≤ chunk_size →
  Client.send_loop chunk_size download_id total [] n b = (n, b, [], None).
Proof.
  intros Hge. remember [] as rest eqn:Hrest.
  funelim (Client.send_loop chunk_size download_id total rest n b).
  - match goal with e : Client.read _ _ = inl _ |- _ =>
      pose proof (read_raises _ _ _ e) as [? _]; lia end.
  - reflexivity.
  - match goal with e : Client.read _ [] = _ |- _ =>
      pose proof (read_concat _ _ _ _ e); discriminate end.
Qed.


(** ** The server's handlers on a known download *)

Lemma lookup_download_Some k info s :
  Server.downloads s !! k = Some info →
  Server.lookup_download (Some k) s = inr (Some (k, info)).
Proof. intros H. unfold Server.lookup_download. by rewrite H. Qed.

Lemma lookup_download_found download_id s k info :
  Server.lookup_download download_id s = inr (Some (k, info)) →
  Server.downloads s !! k = Some info.
Proof.
  unfold Server.lookup_download. destruct download_id as [[k'|]| |]; try done.
  destruct (Server.downloads s !! k') eqn:E; [|done].
  intros H; inversion H; subst. done.
Qed.

(** A chunk with a payload that latin1 can encode: the bytes are appended
    and [chunks_received] is overwritten. *)
Lemma handle_file_chunk_known k info chunk_data b chunk_num s :
  Server.downloads s !! k = Some info →
  encode_latin1 chunk_data = Some b →
  ∃ s', Server.handle_file_chunk (Some k) (Some chunk_data) chunk_num s
        = (s', None)
        ∧ appended k info b chunk_num s s'
        ∧ Server.files s' !! Server.d_file_path info
          = Some (default [] (Server.files s !! Server.d_file_path info) ++ b).
Proof.
  intros Hk Hb. unfold Server.handle_file_chunk.
  rewrite (lookup_download_Some _ _ _ Hk), Hb.
  eexists. split; [reflexivity|]. unfold appended. simpl.
  rewrite !lookup_insert_eq. simpl.
  repeat split; try done.
  - intros k' Hne. by rewrite lookup_insert_ne.
  - intros p Hne. by rewrite !lookup_insert_ne.
Qed.

Lemma appended_refl k info s :
  Server.downloads s !! k = Some info →
  appended k info [] (Server.d_chunks_received info) s s.
Proof.
  intros Hk. unfold appended. rewrite app_nil_r.
  repeat split; try done. rewrite Hk. by destruct info.
Qed.

Lemma appended_trans k info b1 b2 r1 r2 s1 s2 s3 :
  appended k info b1 r1 s1 s2 →
  appended k (Server.set_chunks_received r1 info) b2 r2 s2 s3 →
  appended k info (b1 ++ b2) r2 s1 s3.
Proof.
  unfold appended. simpl.
  intros (A1 & A2 & A3 & A4 & A5 & A6 & A7) (B1 & B2 & B3 & B4 & B5 & B6 & B7).
  repeat split; try congruence.
  - intros k' Hne. rewrite B4, A4; done.
  - rewrite B5. reflexivity.
  - intros p Hne. rewrite B6, A6; done.
  - rewrite B7, A7. by rewrite app_assoc.
Qed.

(** The loop of [websocket_handler] on the chunk messages of the client. *)
Lemma message_loop_chunks chunks :
  ∀ (tms : list (Server.datetime * msg)) total n c s k info,
    Server.downloads s !! k = Some info →
    tms.*2 = chunk_msgs (Some k) total n chunks →
    ∃ s', Server.message_loop tms c s = (c, s', None)
          ∧ appended k info (concat chunks)
              (received_after n chunks (Server.d_chunks_received info)) s s'.
Proof.
  induction chunks as [|chunk chunks IH]; intros tms total n c s k info Hk Htms.
  - destruct tms; [|discriminate]. exists s. split; [done|].
    by apply appended_refl.
  - destruct tms as [|[now m] tms]; [discriminate|].
    simpl in Htms. inversion Htms as [[Hm Hrest]]. clear Htms.
    destruct (handle_file_chunk_known k info (decode_latin1 chunk) chunk
                (Some (n + 1)) s Hk (latin1_roundtrip chunk))
      as (s1 & Hs1 & Happ & _).
    assert (Hk1 : Server.downloads s1 !! k
                  = Some (Server.set_chunks_received (Some (n + 1)) info))
      by apply Happ.
    destruct (IH tms total (n + 1) c s1 k _ Hk1 Hrest) as (s' & Hloop & Happ').
    exists s'. split.
    + simpl. rewrite Hs1. exact Hloop.
    + simpl concat. eapply appended_trans; [exact Happ|].
      replace (received_after n (chunk :: chunks) (Server.d_chunks_received info))
        with (received_after (n + 1) chunks
                (Server.d_chunks_received
                   (Server.set_chunks_received (Some (n + 1)) info))).
      * exact Happ'.
      * destruct chunks; simpl; f_equal; lia.
Qed.

Lemma message_loop_app tms1 tms2 c s c1 s1 :
  Server.message_loop tms1 c s = (c1, s1, None) →
  Server.message_loop (tms1 ++ tms2) c s = Server.message_loop tms2 c1 s1.
Proof.
  revert c s. induction tms1 as [|[now m] tms1 IH]; intros c s H; simpl in *.
  - by inversion H.
  - destruct (Server.on_message now m c s) as [[c' s'] [e|]]; [discriminate|].
    by apply IH.
Qed.

Lemma total_payload_chunk_msgs download_id total n chunks :
  total_payload (chunk_msgs download_id total n chunks)
  = Z.of_nat (length (concat chunks)).
Proof.
  revert n. induction chunks as [|chunk chunks IH]; intros n; [done|].
  simpl. unfold total_payload in IH. rewrite IH, length_decode_latin1, length_app.
  lia.
Qed.

Lemma total_payload_app ms1 ms2 :
  total_payload (ms1 ++ ms2) = total_payload ms1 + total_payload ms2.
Proof.
  unfold total_payload. induction ms1 as [|m ms1 IH]; simpl; [done|].
  rewrite IH. lia.
Qed.

(** The whole transfer of one file: [send_file] succeeds, and the server
    handles what it sent, first the chunks, which brings it from [s] to
    [s1], then [file_complete]. *)
Lemma transfer_run path_str chunk_size disk path content k info s c :
  disk !! path_str path = Some (Client.regular content) →
  1 ≤ chunk_size →
  Server.downloads s !! k = Some info →
  ∃ ms,
    Client.send_file path_str chunk_size disk (Some k) path = (ms, None)
    ∧ total_payload ms = Z.of_nat (length content)
    ∧ ∀ tms : list (Server.datetime * msg), tms.*2 = ms →
        ∃ s1 now received,
          Server.message_loop tms c s
          = (c, Server.set_downloads
                  (<[k := Server.set_completed now
                            (Some (Z.of_nat (length content)))
                            (Server.set_chunks_received received info)]>
                     (Server.downloads s1)) s1, None)
          ∧ appended k info content received s s1.
Proof.
  intros Hdisk Hcs Hk. unfold Client.send_file. rewrite Hdisk.
  destruct (chunk_size =? 0) eqn:E; [apply Z.eqb_eq in E; lia|]. clear E.
  cbn [Client.st_size].
  destruct (send_loop_chunks chunk_size (Some k)
              (Client.total_chunks (Z.of_nat (length content)) chunk_size)
              content 0 0 ltac:(lia) ltac:(lia)) as (chunks & Hloop & Hconcat).
  rewrite Hloop. eexists. split; [reflexivity|]. split.
  - rewrite total_payload_app, total_payload_chunk_msgs, Hconcat.
    unfold total_payload. simpl. lia.
  - intros tms Htms.
    apply fmap_app_inv in Htms as (tms1 & tms2 & Htms1 & Htms2 & ->).
    destruct tms2 as [|[now m] [|? ?]]; try discriminate.
    simpl in Htms2. inversion Htms2 as [Hm]. clear Htms2.
    destruct (message_loop_chunks chunks tms1 _ 0 c s k info Hk (eq_sym Htms1))
      as (s1 & Hrun & Happ).
    exists s1, now, (received_after 0 chunks (Server.d_chunks_received info)).
    split; [|by rewrite <- Hconcat].
    rewrite (message_loop_app _ _ _ _ _ _ Hrun). subst m. simpl.
    unfold Server.handle_file_complete.
    assert (Hk1 : Server.downloads s1 !! k = Some
              (Server.set_chunks_received
                 (received_after 0 chunks (Server.d_chunks_received info)) info))
      by apply Happ.
    by rewrite (lookup_download_Some _ _ _ Hk1).
Qed.

(** ** The properties of the protocol *)

(** C1. Round trip of the payload: latin1 decoding on the client followed
    by latin1 encoding on the server gives back every byte sequence; and
    for every regular file and every chunk size of at least 1, [send_file]
    sends its messages without an exception, and when the server handles
    them the destination file ends up as what it held before (nothing, when
    it did not exist) followed by exactly the bytes of the file. *)
Theorem chunk_roundtrip path_str chunk_size disk path content k info s c :
  disk !! path_str path = Some (Client.regular content) →
  1 ≤ chunk_size →
  Server.downloads s !! k = Some info →
  (∀ payload, encode_latin1 (decode_latin1 payload) = Some payload)
  ∧ ∃ ms,
      Client.send_file path_str chunk_size disk (Some k) path = (ms, None)
      ∧ ∀ tms : list (Server.datetime * msg), tms.*2 = ms →
          ∃ s', Server.message_loop tms c s = (c, s', None)
                ∧ default [] (Server.files s' !! Server.d_file_path info)
                  = default [] (Server.files s !! Server.d_file_path info)
                    ++ content.
Proof.
  intros Hdisk Hcs Hk. split; [exact latin1_roundtrip|].
  destruct (transfer_run _ _ _ _ _ _ _ _ c Hdisk Hcs Hk) as (ms & Hms & _ & Hrun).
  exists ms. split; [exact Hms|]. intros tms Htms.
  destruct (Hrun tms Htms) as (s1 & now & r & Hloop & Happ).
  eexists. split; [exact Hloop|]. simpl. apply Happ.
Qed.

(** C6. For every regular file, which is taken not to change while it is
    sent (the disk is one map, read by [stat] and by every [read] alike),
    and every chunk size of at least 1: after the server has handled the
    messages of [send_file] for a known download, the last of which is
    [file_complete], the record has status [completed] and its [total_size]
    is the sum of the lengths of the payloads of all the chunks that the
    client sent. *)
Theorem complete_total_size path_str chunk_size disk path content k info s c :
  disk !! path_str path = Some (Client.regular content) →
  1 ≤ chunk_size →
  Server.downloads s !! k = Some info →
  ∃ ms,
    Client.send_file path_str chunk_size disk (Some k) path = (ms, None)
    ∧ ∀ tms : list (Server.datetime * msg), tms.*2 = ms →
        ∃ s' info',
          Server.message_loop tms c s = (c, s', None)
          ∧ Server.downloads s' !! k = Some info'
          ∧ Server.d_status info' = Server.completed
          ∧ Server.d_total_size info' = Some (total_payload ms).
Proof.
  intros Hdisk Hcs Hk.
  destruct (transfer_run _ _ _ _ _ _ _ _ c Hdisk Hcs Hk) as (ms & Hms & Hsum & Hrun).
  exists ms. split; [exact Hms|]. intros tms Htms.
  destruct (Hrun tms Htms) as (s1 & now & r & Hloop & _).
  eexists _, _. split; [exact Hloop|]. simpl.
  rewrite lookup_insert_eq. split; [reflexivity|]. simpl.
  by rewrite Hsum.
Qed.



Lemma div_ceiling (a b : Z) :
  0 < b → (a + b - 1) / b = - (- a / b).
Proof.
  intros Hb.
  pose proof (Z.div_mod (a + b - 1) b ltac:(lia)) as H1.
  pose proof (Z.mod_pos_bound (a + b - 1) b Hb) as H2.
  pose proof (Z.div_mod (- a) b ltac:(lia)) as H3.
  pose proof (Z.mod_pos_bound (- a) b Hb) as H4.
  nia.
Qed.

(** C9. For a file of [file_size >= 0] bytes and [chunk_size >= 1], the
    [total_chunks] that the client computes is the ceiling of
    [file_size / chunk_size], that is the one integer [t] with
    [chunk_size * (t - 1) < file_size <= chunk_size * t]; and for a file of
    zero bytes it is 0 and [send_file] sends [file_complete] and nothing
    else. *)
Theorem total_chunks_ceiling path_str file_size chunk_size disk download_id path :
  0 ≤ file_size →
  1 ≤ chunk_size →
  Client.total_chunks file_size chunk_size
  = Qround.Qceiling (QArith_base.Qmake file_size (Z.to_pos chunk_size))
  ∧ chunk_size * (Client.total_chunks file_size chunk_size - 1) < file_size
  ∧ file_size ≤ chunk_size * Client.total_chunks file_size chunk_size
  ∧ Client.total_chunks 0 chunk_size = 0
  ∧ Client.send_file path_str chunk_size
      (<[path_str path := Client.regular []]> disk) download_id path
    = ([file_complete download_id (Some 0) (Some 0)], None).
Proof.
  intros Hfs Hcs. unfold Client.total_chunks.
  rewrite (div_ceiling file_size chunk_size) by lia.
  pose proof (Z.div_mod (- file_size) chunk_size ltac:(lia)) as H3.
  pose proof (Z.mod_pos_bound (- file_size) chunk_size ltac:(lia)) as H4.
  repeat split.
  - unfold Qround.Qceiling, Qround.Qfloor. simpl. by rewrite Z2Pos.id by lia.
  - nia.
  - nia.
  - apply Z.div_small. lia.
  - unfold Client.send_file. rewrite lookup_insert_eq.
    destruct (chunk_size =? 0) eqn:E; [apply Z.eqb_eq in E; lia|].
    cbn [Client.st_size length]. by rewrite send_loop_nil by lia.
Qed.

Example send_file_scenario :
  Client.send_file (λ p, p) 2 Scenario.disk0 (Some "d1") "/home/u/report.csv"
  = (Scenario.sent0, None).
Proof. reflexivity. Qed.

Example send_file_missing :
  Client.send_file (λ p, p) 2 Scenario.disk0 (Some "d1") "/home/u/none"
  = ([], Some (FileNotFoundError "/home/u/none")).
Proof. reflexivity. Qed.

Example strftime_t0 : Server.strftime Scenario.t0 = "20240517_093012".
Proof. reflexivity. Qed.

Lemma chunk_roundtrip_witness :
  (∀ payload, encode_latin1 (decode_latin1 payload) = Some payload)
  ∧ ∃ ms,
      Client.send_file (λ p, p) 2 Scenario.disk0 (Some "d1") "/home/u/report.csv"
      = (ms, None)
      ∧ ∀ tms : list (Server.datetime * msg), tms.*2 = ms →
          ∃ s', Server.message_loop tms Scenario.c1 Scenario.s0
                = (Scenario.c1, s', None)
                ∧ default [] (Server.files s'
                                !! Server.d_file_path Scenario.info0)
                  = default [] (Server.files Scenario.s0
                                  !! Server.d_file_path Scenario.info0)
                    ++ ["a"; "b"; "c"; "d"; "e"]%byte.
Proof.
  apply (chunk_roundtrip (λ p, p) 2 Scenario.disk0 "/home/u/report.csv"
           ["a"; "b"; "c"; "d"; "e"]%byte "d1" Scenario.info0
           Scenario.s0 Scenario.c1); [reflexivity | lia | reflexivity].
Defined.

Lemma complete_total_size_witness :
  ∃ ms,
    Client.send_file (λ p, p) 2 Scenario.disk0 (Some "d1") "/home/u/report.csv"
    = (ms, None)
    ∧ ∀ tms : list (Server.datetime * msg), tms.*2 = ms →
        ∃ s' info',
          Server.message_loop tms Scenario.c1 Scenario.s0
          = (Scenario.c1, s', None)
          ∧ Server.downloads s' !! "d1" = Some info'
          ∧ Server.d_status info' = Server.completed
          ∧ Server.d_total_size info' = Some (total_payload ms).
Proof.
  apply (complete_total_size (λ p, p) 2 Scenario.disk0 "/home/u/report.csv"
           ["a"; "b"; "c"; "d"; "e"]%byte "d1" Scenario.info0
           Scenario.s0 Scenario.c1); [reflexivity | lia | reflexivity].
Defined.


Lemma total_chunks_ceiling_witness :
  Client.total_chunks 2621440 1048576
  = Qround.Qceiling (QArith_base.Qmake 2621440 (Z.to_pos 1048576))
  ∧ 1048576 * (Client.total_chunks 2621440 1048576 - 1) < 2621440
  ∧ 2621440 ≤ 1048576 * Client.total_chunks 2621440 1048576
  ∧ Client.total_chunks 0 1048576 = 0
  ∧ Client.send_file (λ p, p) 1048576
      (<["/home/u/empty" := Client.regular []]> Scenario.disk0)
      (Some "d1") "/home/u/empty"
    = ([file_complete (Some "d1") (Some 0) (Some 0)], None).
Proof.
  apply (total_chunks_ceiling (λ p, p) 2621440 1048576 Scenario.disk0 (Some "d1")
           "/home/u/empty"); lia.
Defined.

Example total_chunks_scenario : Client.total_chunks 2621440 1048576 = 3.
Proof. reflexivity. Qed.

(** ** Dispatch *)

Lemma strftime_same_second t t' :
  same_second t t' → Server.strftime t = Server.strftime t'.
Proof.
  intros (Hy & Hm & Hd & HH & HM & HS). unfold Server.strftime.
  by rewrite Hy, Hm, Hd, HH, HM, HS.
Qed.

Lemma truthy_Some client :
  client ≠ "" → Server.truthy (Some client) = true.
Proof.
  intros H. simpl. apply negb_true_iff. by apply String.eqb_neq.
Qed.


(** A dispatch to a client that is not registered changes nothing. *)
Lemma trigger_download_absent path_join download_dir client_id remote uuid
    now1 now2 s :
  Server.connected_clients s !! client_id = None →
  (Server.trigger_download path_join download_dir client_id remote uuid
     now1 now2 s).1 = s.
Proof.
  intros H. unfold Server.trigger_download.
  destruct (Server.truthy client_id); simpl; [|done]. by rewrite H.
Qed.

Lemma digit_char_inj (a b : nat) :
  Ascii.ascii_of_nat (48 + a mod 10) = Ascii.ascii_of_nat (48 + b mod 10) →
  (a mod 10 = b mod 10)%nat.
Proof.
  intros H. apply (f_equal Ascii.nat_of_ascii) in H.
  pose proof (Nat.mod_upper_bound a 10 ltac:(lia)).
  pose proof (Nat.mod_upper_bound b 10 ltac:(lia)).
  rewrite !Ascii.nat_ascii_embedding in H by lia. lia.
Qed.

Lemma two_digits_inj (a b : nat) :
  (a < 100)%nat → (b < 100)%nat →
  ((a / 10) mod 10 = (b / 10) mod 10)%nat → (a mod 10 = b mod 10)%nat →
  a = b.
Proof.
  intros Ha Hb H1 H0.
  pose proof (Nat.div_mod_eq a 10). pose proof (Nat.div_mod_eq b 10).
  assert (a / 10 < 10)%nat by (apply Nat.Div0.div_lt_upper_bound; lia).
  assert (b / 10 < 10)%nat by (apply Nat.Div0.div_lt_upper_bound; lia).
  rewrite (Nat.mod_small (a / 10)), (Nat.mod_small (b / 10)) in H1 by done.
  lia.
Qed.

Lemma four_digits_inj (a b : nat) :
  (a / 100 < 100)%nat → (b / 100 < 100)%nat →
  ((a / 100 / 10) mod 10 = (b / 100 / 10) mod 10)%nat →
  ((a / 100) mod 10 = (b / 100) mod 10)%nat →
  ((a / 10) mod 10 = (b / 10) mod 10)%nat → (a mod 10 = b mod 10)%nat →
  a = b.
Proof.
  intros Ha Hb H3 H2 H1 H0.
  assert (Hq : (a / 100 = b / 100)%nat) by by apply two_digits_inj.
  pose proof (Nat.div_mod_eq a 10). pose proof (Nat.div_mod_eq b 10).
  pose proof (Nat.div_mod_eq (a / 10) 10). pose proof (Nat.div_mod_eq (b / 10) 10).
  assert (Ha' : (a / 10 / 10 = a / 100)%nat) by (by rewrite Nat.Div0.div_div).
  assert (Hb' : (b / 10 / 10 = b / 100)%nat) by (by rewrite Nat.Div0.div_div).
  lia.
Qed.

Lemma append_cancel_l (p x y : string) : p +:+ x = p +:+ y → x = y.
Proof. induction p as [|a p IH]; simpl; [done|]. intros H. inversion H. auto. Qed.





(** The destination of a dispatch one second later has another name. *)
Example next_second_destination :
  ∃ info,
    Server.downloads
      (Server.trigger_download Scenario.join "downloads" (Some "site-7")
         None "d2" Scenario.t2 Scenario.t2 Scenario.s0).1 !! "d2" = Some info
    ∧ Server.d_file_path info
      = "downloads/site-7_20240517_093013_file_to_download.txt"
    ∧ Server.d_remote_path info = "$HOME/file_to_download.txt"
    ∧ basename (Server.d_remote_path info) = "file_to_download.txt".
Proof. eexists. repeat split. Qed.

(** Two dispatches of the same second share their destination file: the
    chunks of both downloads are appended to it in the order of arrival. *)
Example same_second_dispatches_share_file :
  let s1 := (Server.trigger_download Scenario.join "downloads" (Some "site-7")
               (Some "$HOME/report.csv") "d2" Scenario.t0 Scenario.t0
               Scenario.s0).1 in
  let s2 := (Server.trigger_download Scenario.join "downloads" (Some "site-7")
               (Some "/var/log/syslog") "d3" Scenario.t1 Scenario.t1 s1).1 in
  let s3 := (Server.handle_file_chunk (Some "d2") (Some [97%N]) (Some 1) s2).1 in
  let s4 := (Server.handle_file_chunk (Some "d3") (Some [98%N]) (Some 1) s3).1 in
  Server.files s4 = {[ "downloads/site-7_20240517_093012_file_to_download.txt"
                       := ["a"; "b"]%byte ]}.
Proof. vm_compute. reflexivity. Qed.

(** C8, as the code has it. A dispatch whose [client_id] is missing or
    empty is rejected with [MissingField], whatever the registry holds; a
    dispatch that names a non-empty [client_id] absent from the registry
    fails with [ClientNotConnected].  In both cases the server, hence the
    table of downloads, is left as it was: no record is created. *)
Theorem dispatch_absent_identity path_join download_dir client_id remote uuid
    now1 now2 s :
  (∀ client, client_id = Some client → client ≠ "" →
     Server.connected_clients s !! Some client = None) →
  Server.trigger_download path_join download_dir client_id remote uuid
    now1 now2 s
  = (s, match client_id with
        | None => Server.MissingField
        | Some client =>
            if String.eqb client "" then Server.MissingField
            else Server.ClientNotConnected client
        end).
Proof.
  intros H. unfold Server.trigger_download, Server.truthy.
  destruct client_id as [client|]; [|reflexivity].
  destruct (String.eqb client "") eqn:E; [reflexivity|].
  apply String.eqb_neq in E. simpl negb. cbv iota.
  by rewrite (H client eq_refl E).
Qed.

Lemma dispatch_absent_identity_witness :
  Server.trigger_download Scenario.join "downloads" (Some "site-9")
    (Some "$HOME/report.csv") "d2" Scenario.t0 Scenario.t0 Scenario.s0
  = (Scenario.s0, Server.ClientNotConnected "site-9").
Proof.
  apply (dispatch_absent_identity Scenario.join "downloads" (Some "site-9")
           (Some "$HOME/report.csv") "d2" Scenario.t0 Scenario.t0 Scenario.s0).
  intros client Hc _. injection Hc as <-. reflexivity.
Defined.

(** An empty identity is rejected with [MissingField] even when a client
    registered under it. *)
Example dispatch_empty_identity_registered :
  let s := (Server.on_message Scenario.t0 (register (Some ""))
              {| Server.ws := 2; Server.client_id := None |} Scenario.s0).1.2 in
  Server.connected_clients s !! Some "" = Some 2%nat
  ∧ Server.trigger_download Scenario.join "downloads" (Some "")
      (Some "$HOME/report.csv") "d2" Scenario.t0 Scenario.t0 s
    = (s, Server.MissingField)
  ∧ Server.trigger_download Scenario.join "downloads" None
      (Some "$HOME/report.csv") "d2" Scenario.t0 Scenario.t0 s
    = (s, Server.MissingField).
Proof. repeat split; reflexivity. Qed.

(** C8 as stated fails for the empty identity: absent from the registry,
    it is answered by [MissingField], not by [ClientNotConnected]. *)
Lemma dispatch_empty_identity_missing_field :
  ¬ (∀ path_join download_dir client remote uuid now1 now2 s,
       Server.connected_clients s !! Some client = None →
       (Server.trigger_download path_join download_dir (Some client) remote
          uuid now1 now2 s).2 = Server.ClientNotConnected client).
Proof.
  intros H.
  specialize (H Scenario.join "downloads" "" None "d2" Scenario.t0 Scenario.t0
                Scenario.s0 eq_refl).
  discriminate H.
Qed.

(** ** The life cycle of a download *)

Example scenario_failed :
  Server.downloads Scenario.s_failed !! "d1" = Some Scenario.info_failed.
Proof. reflexivity. Qed.

Example scenario_completed :
  Server.d_status <$> Server.downloads Scenario.s_completed !! "d1"
  = Some Server.completed
  ∧ Server.files Scenario.s_completed
      !! "downloads/site-7_20240517_093012_file_to_download.txt"
    = Some ["a"; "b"; "c"; "d"; "e"]%byte.
Proof. split; reflexivity. Qed.

Lemma handle_file_complete_known now k info total_size s :
  Server.downloads s !! k = Some info →
  (Server.handle_file_complete now (Some k) total_size s).1
  = Server.set_downloads
      (<[k := Server.set_completed now total_size info]> (Server.downloads s)) s.
Proof.
  intros Hk. unfold Server.handle_file_complete.
  rewrite (lookup_download_Some _ _ _ Hk). by destruct total_size.
Qed.

Lemma handle_client_error_known k info error_msg s :
  Server.downloads s !! k = Some info →
  Server.handle_client_error (Some k) error_msg s
  = (Server.set_downloads
       (<[k := Server.set_failed error_msg info]> (Server.downloads s)) s, None).
Proof.
  intros Hk. unfold Server.handle_client_error.
  by rewrite (lookup_download_Some _ _ _ Hk).
Qed.

(** C2 as stated fails: a [file_complete] that arrives after the [error]
    of the same download turns the failed record into a completed one. *)
Lemma late_file_complete_overwrites_failed :
  ¬ (∀ now k info total_size s,
       Server.downloads s !! k = Some info →
       Server.d_status info = Server.failed →
       Server.d_status
         <$> Server.downloads
               (Server.handle_file_complete now (Some k) total_size s).1 !! k
       = Some Server.failed).
Proof.
  intros H.
  specialize (H Scenario.t0 "d1" Scenario.info_failed (Some 5) Scenario.s_failed
                eq_refl eq_refl).
  discriminate H.
Qed.

(** C2, as the code has it. For a known download, whatever the status of
    its record: [file_complete] leaves it [completed], [error] leaves it
    [failed], and a [file_chunk] with an encodable payload leaves the
    status as it was. *)
Theorem status_follows_last_signal now k info total_size error_msg
    chunk_data b chunk_num s :
  Server.downloads s !! k = Some info →
  encode_latin1 chunk_data = Some b →
  Server.d_status
    <$> Server.downloads
          (Server.handle_file_complete now (Some k) total_size s).1 !! k
  = Some Server.completed
  ∧ Server.d_status
      <$> Server.downloads
            (Server.handle_client_error (Some k) error_msg s).1 !! k
    = Some Server.failed
  ∧ Server.d_status
      <$> Server.downloads
            (Server.handle_file_chunk (Some k) (Some chunk_data) chunk_num s).1
            !! k
    = Some (Server.d_status info).
Proof.
  intros Hk Hb. repeat split.
  - rewrite (handle_file_complete_known _ _ _ _ _ Hk). simpl.
    by rewrite lookup_insert_eq.
  - rewrite (handle_client_error_known _ _ _ _ Hk). simpl.
    by rewrite lookup_insert_eq.
  - destruct (handle_file_chunk_known k info chunk_data b chunk_num s Hk Hb)
      as (s' & -> & (_ & _ & _ & _ & Hd & _) & _).
    simpl. by rewrite Hd.
Qed.

Lemma status_follows_last_signal_witness :
  Server.d_status
    <$> Server.downloads
          (Server.handle_file_complete Scenario.t1 (Some "d1") (Some 5)
             Scenario.s_failed).1 !! "d1"
  = Some Server.completed
  ∧ Server.d_status
      <$> Server.downloads
            (Server.handle_client_error (Some "d1") (Some "late")
               Scenario.s_failed).1 !! "d1"
    = Some Server.failed
  ∧ Server.d_status
      <$> Server.downloads
            (Server.handle_file_chunk (Some "d1") (Some [97%N]) (Some 4)
               Scenario.s_failed).1 !! "d1"
    = Some (Server.d_status Scenario.info_failed).
Proof.
  apply (status_follows_last_signal Scenario.t1 "d1" Scenario.info_failed
           (Some 5) (Some "late") [97%N] ["a"%byte] (Some 4) Scenario.s_failed);
    reflexivity.
Defined.

(** C3 as stated fails: a chunk for a download that is already completed
    is appended to its file and changes its record. *)
Lemma late_chunk_is_appended :
  ¬ (∀ k info chunk_data chunk_num s,
       Server.downloads s !! k = Some info →
       Server.d_status info ≠ Server.downloading →
       Server.files
         (Server.handle_file_chunk (Some k) chunk_data chunk_num s).1
       = Server.files s
       ∧ Server.downloads
           (Server.handle_file_chunk (Some k) chunk_data chunk_num s).1 !! k
         = Some info).
Proof.
  intros H.
  destruct (H "d1" Scenario.info_completed
              (Some [120%N]) (Some 9) Scenario.s_completed eq_refl
              ltac:(discriminate)) as [Hfiles _].
  apply (f_equal (λ f : gmap string (list byte),
                    f !! "downloads/site-7_20240517_093012_file_to_download.txt"))
    in Hfiles.
  vm_compute in Hfiles. discriminate Hfiles.
Qed.

(** C3, as the code has it. A [file_chunk] with an encodable payload for a
    known download is handled in the same way whatever the status of the
    record: the payload is appended to the destination file,
    [chunks_received] becomes the [chunk_num] of the message, and the other
    fields of the record, its status included, stay as they were. *)
Theorem chunk_appended_whatever_status k info chunk_data b chunk_num s :
  Server.downloads s !! k = Some info →
  encode_latin1 chunk_data = Some b →
  ∃ s',
    Server.handle_file_chunk (Some k) (Some chunk_data) chunk_num s = (s', None)
    ∧ Server.files s' !! Server.d_file_path info
      = Some (default [] (Server.files s !! Server.d_file_path info) ++ b)
    ∧ Server.downloads s' !! k
      = Some (Server.set_chunks_received chunk_num info).
Proof.
  intros Hk Hb.
  destruct (handle_file_chunk_known k info chunk_data b chunk_num s Hk Hb)
    as (s' & Hs' & (_ & _ & _ & _ & Hd & _) & Hf).
  exists s'. done.
Qed.

Lemma chunk_appended_whatever_status_witness :
  ∃ s',
    Server.handle_file_chunk (Some "d1") (Some [120%N]) (Some 9)
      Scenario.s_completed = (s', None)
    ∧ Server.files s' !! Server.d_file_path Scenario.info_completed
      = Some (default []
                (Server.files Scenario.s_completed
                   !! Server.d_file_path Scenario.info_completed)
              ++ ["x"%byte])
    ∧ Server.downloads s' !! "d1"
      = Some (Server.set_chunks_received (Some 9) Scenario.info_completed).
Proof.
  apply (chunk_appended_whatever_status "d1" Scenario.info_completed
           [120%N] ["x"%byte] (Some 9) Scenario.s_completed); reflexivity.
Defined.

(** C5 as stated fails: a chunk numbered below the current
    [chunks_received] lowers it. *)
Lemma chunks_received_can_decrease :
  ¬ (∀ k info current chunk_data chunk_num s,
       Server.downloads s !! k = Some info →
       Server.d_chunks_received info = Some current →
       Server.d_chunks_received
         <$> Server.downloads
               (Server.handle_file_chunk (Some k) chunk_data (Some chunk_num)
                  s).1 !! k
       = Some (Some (Z.max current chunk_num))).
Proof.
  intros H.
  specialize (H "d1" Scenario.info_completed 3 (Some [120%N]) 2
                Scenario.s_completed eq_refl eq_refl).
  vm_compute in H. discriminate H.
Qed.

(** C5, as the code has it. A [file_chunk] with an encodable payload for a
    known download sets [chunks_received] to the [chunk_num] of the
    message; this is the maximum of the two when [chunk_num] is not below
    the current value, and after the server has handled the first [n]
    chunks that the client's loop numbers 1, 2, ... the field is [n]. *)
Theorem chunks_received_is_last_chunk_num k info chunk_data b chunk_num s :
  Server.downloads s !! k = Some info →
  encode_latin1 chunk_data = Some b →
  Server.d_chunks_received
    <$> Server.downloads
          (Server.handle_file_chunk (Some k) (Some chunk_data) chunk_num s).1
          !! k
  = Some chunk_num
  ∧ (∀ current n,
       Server.d_chunks_received info = Some current → chunk_num = Some n →
       current ≤ n →
       Server.d_chunks_received
         <$> Server.downloads
               (Server.handle_file_chunk (Some k) (Some chunk_data) chunk_num
                  s).1 !! k
       = Some (Some (Z.max current n)))
  ∧ (∀ chunk chunks total c (tms : list (Server.datetime * msg)),
       tms.*2 = chunk_msgs (Some k) total 0 (chunk :: chunks) →
       ∃ s', Server.message_loop tms c s = (c, s', None)
             ∧ Server.d_chunks_received <$> Server.downloads s' !! k
               = Some (Some (Z.of_nat (length (chunk :: chunks))))).
Proof.
  intros Hk Hb.
  assert (Hset : Server.d_chunks_received
                   <$> Server.downloads
                         (Server.handle_file_chunk (Some k) (Some chunk_data)
                            chunk_num s).1 !! k
                 = Some chunk_num).
  { destruct (handle_file_chunk_known k info chunk_data b chunk_num s Hk Hb)
      as (s' & -> & (_ & _ & _ & _ & Hd & _) & _).
    simpl. by rewrite Hd. }
  repeat split.
  - exact Hset.
  - intros current n _ Hn Hle. rewrite Hset, Hn. do 2 f_equal. lia.
  - intros chunk chunks total c tms Htms.
    destruct (message_loop_chunks (chunk :: chunks) tms total 0 c s k info
                Hk Htms) as (s' & Hrun & (_ & _ & _ & _ & Hd & _)).
    exists s'. split; [exact Hrun|]. rewrite Hd. simpl. reflexivity.
Qed.

Lemma chunks_received_is_last_chunk_num_witness :
  Server.d_chunks_received
    <$> Server.downloads
          (Server.handle_file_chunk (Some "d1") (Some [97; 98]%N) (Some 1)
             Scenario.s0).1 !! "d1"
  = Some (Some 1)
  ∧ (∀ current n,
       Server.d_chunks_received Scenario.info0 = Some current →
       Some 1 = Some n → current ≤ n →
       Server.d_chunks_received
         <$> Server.downloads
               (Server.handle_file_chunk (Some "d1") (Some [97; 98]%N) (Some 1)
                  Scenario.s0).1 !! "d1"
       = Some (Some (Z.max current n)))
  ∧ (∀ chunk chunks total c (tms : list (Server.datetime * msg)),
       tms.*2 = chunk_msgs (Some "d1") total 0 (chunk :: chunks) →
       ∃ s', Server.message_loop tms c Scenario.s0 = (c, s', None)
             ∧ Server.d_chunks_received <$> Server.downloads s' !! "d1"
               = Some (Some (Z.of_nat (length (chunk :: chunks))))).
Proof.
  apply (chunks_received_is_last_chunk_num "d1" Scenario.info0
           [97; 98]%N ["a"; "b"]%byte (Some 1) Scenario.s0); reflexivity.
Defined.

(** ** The registry of connected clients *)

Example scenario_replaced :
  Server.connected_clients Scenario.s_replaced !! Some "site-7" = Some 2%nat.
Proof. reflexivity. Qed.

(** C4 as stated fails: when a later registration has replaced the entry
    of an identity, the end of the older connection still removes the
    entry, which is the one of the newer WebSocket. *)
Lemma orphan_disconnect_removes_newer_entry :
  ¬ (∀ c s w,
       Server.connected_clients s !! Server.client_id c = Some w →
       w ≠ Server.ws c →
       Server.connected_clients (Server.on_disconnect c s)
         !! Server.client_id c = Some w).
Proof.
  intros H.
  specialize (H Scenario.c1 Scenario.s_replaced 2%nat eq_refl
                ltac:(discriminate)).
  vm_compute in H. discriminate H.
Qed.

(** A connection that registered no identity, or the empty one, leaves the
    registry as it was. *)
Lemma disconnect_without_identity c s :
  Server.truthy (Server.client_id c) = false →
  Server.connected_clients (Server.on_disconnect c s)
  = Server.connected_clients s.
Proof. intros Ht. unfold Server.on_disconnect. by rewrite Ht. Qed.

(** C4, as the code has it. At the end of a connection whose last
    registered identity is neither missing nor empty, the registry has no
    entry for that identity any more, whichever WebSocket the entry named,
    and the entries of all other identities are as before. *)
Theorem disconnect_removes_identity c s :
  Server.truthy (Server.client_id c) = true →
  Server.connected_clients (Server.on_disconnect c s) !! Server.client_id c
  = None
  ∧ ∀ other, other ≠ Server.client_id c →
      Server.connected_clients (Server.on_disconnect c s) !! other
      = Server.connected_clients s !! other.
Proof.
  intros Ht. unfold Server.on_disconnect. rewrite Ht. simpl.
  case_bool_decide as Hin; split.
  - apply lookup_delete_eq.
  - intros other Hne. by apply lookup_delete_ne.
  - destruct (Server.connected_clients s !! Server.client_id c) eqn:E; [|done].
    exfalso. apply Hin. by eexists.
  - done.
Qed.

Lemma disconnect_removes_identity_witness :
  Server.connected_clients (Server.on_disconnect Scenario.c1 Scenario.s_replaced)
    !! Some "site-7" = None
  ∧ ∀ other, other ≠ Some "site-7" →
      Server.connected_clients
        (Server.on_disconnect Scenario.c1 Scenario.s_replaced) !! other
      = Server.connected_clients Scenario.s_replaced !! other.
Proof.
  apply (disconnect_removes_identity Scenario.c1 Scenario.s_replaced).
  reflexivity.
Defined.

(** * Further properties of the code *)

(** ** The codec in the other direction *)

(** X1. [encode_latin1] succeeds exactly on the strings whose code points
    are all at most 255, and it is the inverse of [decode_latin1]: a string
    encodes to [b] exactly when it is the decoding of [b]. *)
Theorem latin1_inverse (chunk_data : list N) (b : list byte) :
  (encode_latin1 chunk_data = Some b ↔ decode_latin1 b = chunk_data)
  ∧ (is_Some (encode_latin1 chunk_data)
     ↔ Forall (λ c, (c ≤ 255)%N) chunk_data).
Proof.
  unfold encode_latin1, decode_latin1. split; [split|].
  - intros H. apply (mapM_fmap_Some_inv _ _ _ _ H).
    intros x y Hxy. by apply Byte.to_of_N.
  - intros <-. apply mapM_fmap_Some. exact Byte.of_to_N.
  - rewrite mapM_is_Some. apply Forall_proper; [|done].
    intros c. simpl. split.
    + intros [y Hy]. apply Byte.to_of_N in Hy as <-. apply Byte.to_N_bounded.
    + intros Hc. destruct (Byte.of_N c) eqn:E; [by eexists|].
      apply Byte.of_N_None_iff in E. lia.
Qed.

(** ** Error paths of the server's handlers *)

(** X2. A [file_chunk] for a known download whose payload is missing or
    has a code point that latin1 cannot encode raises ([AttributeError],
    resp. [UnicodeEncodeError]) after the destination file was opened:
    nothing is appended, the file exists afterwards (empty when it did not
    exist), no other file and no record changes. *)
Theorem chunk_bad_payload k info chunk_data chunk_num s :
  Server.downloads s !! k = Some info →
  chunk_data ≫= encode_latin1 = None →
  let r := Server.handle_file_chunk (Some k) chunk_data chunk_num s in
  r.2 = Some (match chunk_data with
              | None => AttributeError
              | Some _ => UnicodeEncodeError
              end)
  ∧ Server.downloads r.1 = Server.downloads s
  ∧ Server.files r.1 !! Server.d_file_path info
    = Some (default [] (Server.files s !! Server.d_file_path info))
  ∧ ∀ p, p ≠ Server.d_file_path info →
      Server.files r.1 !! p = Server.files s !! p.
Proof.
  intros Hk Hbad. unfold Server.handle_file_chunk.
  rewrite (lookup_download_Some _ _ _ Hk).
  destruct chunk_data as [d|]; simpl in *; [rewrite Hbad|]; simpl;
    rewrite lookup_insert_eq; (repeat split; [done..|]);
    intros p Hp; by rewrite lookup_insert_ne.
Qed.

(** X3. [file_complete] and [error] for a [download_id] that is not a key
    of [downloads] leave the server as it was, whatever else the message
    holds; they raise nothing when the [download_id] is a string, a number,
    a boolean or missing, and the membership test raises [TypeError] when
    it is a JSON array or object. *)
Theorem signals_unknown_download now (download_id : ident) total_size
    error_msg s :
  (∀ k, download_id = Some k → Server.downloads s !! k = None) →
  let raised := match download_id with
                | ident_unhashable _ => Some TypeError
                | _ => None
                end in
  Server.handle_file_complete now download_id total_size s = (s, raised)
  ∧ Server.handle_client_error download_id error_msg s = (s, raised).
Proof.
  intros H.
  unfold Server.handle_file_complete, Server.handle_client_error,
    Server.lookup_download.
  destruct download_id as [[k|]| |]; try done. by rewrite (H k eq_refl).
Qed.

(** X4. A [file_complete] without [total_size] for a known download
    raises [TypeError], but only after the record was marked: its status is
    [completed], and its [total_size] is missing. *)
Theorem complete_without_size now k info s :
  Server.downloads s !! k = Some info →
  let r := Server.handle_file_complete now (Some k) None s in
  r.2 = Some TypeError
  ∧ Server.downloads r.1 !! k = Some (Server.set_completed now None info)
  ∧ Server.files r.1 = Server.files s.
Proof.
  intros Hk. unfold Server.handle_file_complete.
  rewrite (lookup_download_Some _ _ _ Hk). simpl.
  by rewrite lookup_insert_eq.
Qed.

Lemma message_loop_raise pre now m post c0 s0 c s c' s' e :
  Server.message_loop pre c0 s0 = (c, s, None) →
  Server.on_message now m c s = (c', s', Some e) →
  Server.message_loop (pre ++ (now, m) :: post) c0 s0 = (c', s', Some e).
Proof.
  intros Hpre Hm. rewrite (message_loop_app _ _ _ _ _ _ Hpre). simpl.
  by rewrite Hm.
Qed.

(** X5. An exception of a handler ends the connection: the messages that
    follow the one that raised are not handled, and the [finally] block
    runs on the state reached when it was raised. *)
Theorem exception_ends_connection ws pre now m post s c s1 c' s' e :
  Server.message_loop pre {| Server.ws := ws; Server.client_id := None |} s
  = (c, s1, None) →
  Server.on_message now m c s1 = (c', s', Some e) →
  Server.websocket_handler ws (pre ++ (now, m) :: post) s
  = (Server.on_disconnect c' s', Some e).
Proof.
  intros Hpre Hm. unfold Server.websocket_handler.
  by rewrite (message_loop_raise _ _ _ post _ _ _ _ _ _ _ Hpre Hm).
Qed.

(** ** What the handlers leave alone *)

Lemma handle_file_chunk_frame download_id chunk_data chunk_num s :
  let s' := (Server.handle_file_chunk download_id chunk_data chunk_num s).1 in
  Server.connected_clients s' = Server.connected_clients s
  ∧ Server.sent s' = Server.sent s ∧ Server.closed s' = Server.closed s.
Proof.
  unfold Server.handle_file_chunk.
  destruct (Server.lookup_download download_id s) as [e|[[k info]|]];
    [done| |done].
  destruct chunk_data as [d|]; [|done].
  by destruct (encode_latin1 d).
Qed.

Lemma handle_file_complete_frame now download_id total_size s :
  let s' := (Server.handle_file_complete now download_id total_size s).1 in
  Server.connected_clients s' = Server.connected_clients s
  ∧ Server.sent s' = Server.sent s ∧ Server.closed s' = Server.closed s
  ∧ Server.files s' = Server.files s.
Proof.
  unfold Server.handle_file_complete.
  destruct (Server.lookup_download download_id s) as [e|[[k info]|]];
    [done| |done].
  by destruct total_size.
Qed.

Lemma handle_client_error_frame download_id error_msg s :
  let s' := (Server.handle_client_error download_id error_msg s).1 in
  Server.connected_clients s' = Server.connected_clients s
  ∧ Server.sent s' = Server.sent s ∧ Server.closed s' = Server.closed s
  ∧ Server.files s' = Server.files s.
Proof.
  unfold Server.handle_client_error.
  by destruct (Server.lookup_download download_id s) as [e|[[k info]|]].
Qed.

(** What a message other than [register], resp. other than [file_chunk],
    leaves as it was. *)
Lemma on_message_frame now m c s :
  let r := Server.on_message now m c s in
  ((∀ client_id, m ≠ register client_id) →
   r.1.1 = c
   ∧ Server.connected_clients r.1.2 = Server.connected_clients s
   ∧ Server.sent r.1.2 = Server.sent s)
  ∧ ((∀ download_id chunk_num total data,
        m ≠ file_chunk download_id chunk_num total data) →
     Server.files r.1.2 = Server.files s).
Proof.
  destruct m as [cid| | |id n t d|id sz t|id e| | |]; simpl; split; intros H;
    try done.
  - by destruct (H cid).
  - unfold Server.send_json. simpl. by case_decide.
  - pose proof (handle_file_chunk_frame id d n s) as (? & ? & ?).
    by destruct (Server.handle_file_chunk id d n s).
  - by destruct (H id n t d).
  - pose proof (handle_file_complete_frame now id sz s) as (? & ? & ? & ?).
    by destruct (Server.handle_file_complete now id sz s).
  - pose proof (handle_file_complete_frame now id sz s) as (? & ? & ? & ?).
    by destruct (Server.handle_file_complete now id sz s).
  - pose proof (handle_client_error_frame id e s) as (? & ? & ? & ?).
    by destruct (Server.handle_client_error id e s).
  - pose proof (handle_client_error_frame id e s) as (? & ? & ? & ?).
    by destruct (Server.handle_client_error id e s).
Qed.

(** X6. Only [register] touches the registry and only [file_chunk] touches
    the disk: a message is a [register], or it leaves the connection's
    identity, the registry and the messages sent as they were; and a
    message is a [file_chunk], or it leaves all files as they were. *)
Theorem message_frame now m c s :
  let r := Server.on_message now m c s in
  ((∃ client_id, m = register client_id)
   ∨ (r.1.1 = c
      ∧ Server.connected_clients r.1.2 = Server.connected_clients s
      ∧ Server.sent r.1.2 = Server.sent s))
  ∧ ((∃ download_id chunk_num total data,
        m = file_chunk download_id chunk_num total data)
     ∨ Server.files r.1.2 = Server.files s).
Proof.
  pose proof (on_message_frame now m c s) as [H1 H2]. cbn zeta in *.
  split.
  - destruct m; try (right; apply H1; discriminate). left. by eexists.
  - destruct m; try (right; apply H2; discriminate). left. by do 4 eexists.
Qed.

Lemma same_download_refl d : same_download d d.
Proof. by repeat split. Qed.

Lemma same_download_trans d1 d2 d3 :
  same_download d1 d2 → same_download d2 d3 → same_download d1 d3.
Proof.
  unfold same_download. intros (? & ? & ? & ? & ?) (? & ? & ? & ? & ?).
  repeat split; congruence.
Qed.

Lemma on_message_record now m c s k d :
  Server.downloads s !! k = Some d →
  ∃ d', Server.downloads (Server.on_message now m c s).1.2 !! k = Some d'
        ∧ same_download d d'.
Proof.
  intros Hk.
  assert (Hup : ∀ k' (f : Server.download_info → Server.download_info) info,
            Server.downloads s !! k' = Some info →
            (∀ x, same_download x (f x)) →
            ∃ d', <[k' := f info]> (Server.downloads s) !! k = Some d'
                  ∧ same_download d d').
  { intros k' f info Hk' Hf. destruct (decide (k' = k)) as [->|Hne].
    - rewrite lookup_insert_eq. eexists. split; [done|].
      rewrite Hk in Hk'. inversion Hk'. apply Hf.
    - rewrite lookup_insert_ne by done. eauto using same_download_refl. }
  destruct m as [cid| | |id n t dat|id sz t|id e| | |]; simpl;
    eauto using same_download_refl.
  - unfold Server.send_json. simpl. case_decide; simpl;
      eauto using same_download_refl.
  - unfold Server.handle_file_chunk.
    destruct (Server.lookup_download id s) as [e0|[[k' info]|]] eqn:E; simpl;
      [eauto using same_download_refl| |eauto using same_download_refl].
    apply lookup_download_found in E.
    destruct dat as [dat|]; simpl; [|eauto using same_download_refl].
    destruct (encode_latin1 dat); simpl; [|eauto using same_download_refl].
    by apply Hup.
  - unfold Server.handle_file_complete.
    destruct (Server.lookup_download id s) as [e0|[[k' info]|]] eqn:E; simpl;
      [eauto using same_download_refl| |eauto using same_download_refl].
    apply lookup_download_found in E.
    destruct sz; simpl; by apply Hup.
  - unfold Server.handle_client_error.
    destruct (Server.lookup_download id s) as [e0|[[k' info]|]] eqn:E; simpl;
      [eauto using same_download_refl| |eauto using same_download_refl].
    apply lookup_download_found in E.
    by apply Hup.
Qed.

(** X7. No message deletes a download or redirects it: a record that is
    in the table before a connection's messages are handled is still there
    after them and after the end of the connection, with the same
    [download_id], client, destination path, remote path and start time. *)
Theorem connection_keeps_downloads ws tms s k d :
  Server.downloads s !! k = Some d →
  ∃ d', Server.downloads (Server.websocket_handler ws tms s).1 !! k = Some d'
        ∧ same_download d d'.
Proof.
  intros Hk. unfold Server.websocket_handler.
  generalize {| Server.ws := ws; Server.client_id := None |}.
  revert s d Hk. induction tms as [|[now m] tms IH]; intros s d Hk c; simpl.
  - eauto using same_download_refl.
  - destruct (on_message_record now m c s k d Hk) as (d1 & Hd1 & Hsame).
    destruct (Server.on_message now m c s) as [[c1 s1] [e|]]; simpl in *.
    + eauto.
    + destruct (IH s1 d1 Hd1 c1) as (d' & Hd' & Hsame').
      eauto using same_download_trans.
Qed.

Lemma on_message_file now m c s p old :
  Server.files s !! p = Some old →
  ∃ extra, Server.files (Server.on_message now m c s).1.2 !! p
           = Some (old ++ extra).
Proof.
  intros Hp.
  assert (Hsame : ∃ extra, Server.files s !! p = Some (old ++ extra))
    by (exists []; by rewrite app_nil_r).
  assert (Hcase : (∃ id n t d, m = file_chunk id n t d)
                  ∨ ¬ (∃ id n t d, m = file_chunk id n t d)).
  { destruct m; try (right; intros (? & ? & ? & ? & ?); discriminate).
    left. by do 4 eexists. }
  destruct Hcase as [(id & n & t & d & ->)|Hm].
  - simpl. unfold Server.handle_file_chunk.
    destruct (Server.lookup_download id s) as [e0|[[k info]|]]; simpl;
      [done| |done].
    assert (Hopen : ∀ b,
              ∃ extra,
                <[Server.d_file_path info
                  := default [] (Server.files s !! Server.d_file_path info) ++ b]>
                  (Server.files s) !! p = Some (old ++ extra)).
    { intros b. destruct (decide (Server.d_file_path info = p)) as [->|Hne].
      - rewrite lookup_insert_eq, Hp. simpl. by eexists.
      - by rewrite lookup_insert_ne. }
    destruct d as [d|]; simpl.
    + destruct (encode_latin1 d) as [b|]; simpl.
      * rewrite lookup_insert_eq. simpl. rewrite insert_insert_eq. apply Hopen.
      * destruct (Hopen []) as [extra He]. rewrite app_nil_r in He. eauto.
    + destruct (Hopen []) as [extra He]. rewrite app_nil_r in He. eauto.
  - pose proof (on_message_frame now m c s) as [_ Hf]. simpl in Hf.
    rewrite Hf; [done|]. intros id n t d ->. apply Hm. by exists id, n, t, d.
Qed.

(** X8. The server only ever appends: whatever the messages of a
    connection are, a file that exists before they are handled has its
    earlier content as a prefix of its content afterwards. *)
Theorem files_append_only ws tms s p old :
  Server.files s !! p = Some old →
  ∃ extra, Server.files (Server.websocket_handler ws tms s).1 !! p
           = Some (old ++ extra).
Proof.
  intros Hp. unfold Server.websocket_handler.
  generalize {| Server.ws := ws; Server.client_id := None |}.
  revert s old Hp. induction tms as [|[now m] tms IH]; intros s old Hp c; simpl.
  - exists []. by rewrite app_nil_r.
  - destruct (on_message_file now m c s p old Hp) as (extra & He).
    destruct (Server.on_message now m c s) as [[c1 s1] [e|]]; simpl in *.
    + eauto.
    + destruct (IH s1 _ He c1) as (extra' & He').
      exists (extra ++ extra'). by rewrite app_assoc.
Qed.

(** ** The messages of [send_file] *)

Lemma total_chunks_succ (len chunk_size : Z) :
  0 < chunk_size → 0 < len →
  Client.total_chunks len chunk_size
  = 1 + Client.total_chunks (Z.max 0 (len - chunk_size)) chunk_size.
Proof.
  intros Hcs Hlen. unfold Client.total_chunks.
  destruct (Z.le_gt_cases len chunk_size) as [Hle|Hgt].
  - rewrite Z.max_l by lia. rewrite (Z.div_small (0 + chunk_size - 1)) by lia.
    symmetry. apply (Z.div_unique _ _ _ (len - 1)); lia.
  - rewrite Z.max_r by lia.
    replace (len + chunk_size - 1) with (len - chunk_size + chunk_size - 1 + 1 * chunk_size) by lia.
    rewrite Z.div_add by lia. lia.
Qed.

Lemma total_chunks_nonneg (len chunk_size : Z) :
  0 < chunk_size → 0 ≤ len → 0 ≤ Client.total_chunks len chunk_size.
Proof. intros. unfold Client.total_chunks. apply Z.div_pos; lia. Qed.

(** With a positive chunk size the loop sends, for a file of [len] bytes
    left, [total_chunks len] messages, the [i]-th of which carries the
    bytes from [i * chunk_size] on. *)
Lemma send_loop_indexed chunk_size download_id total rest n b :
  0 < chunk_size →
  ∃ ms,
    Client.send_loop chunk_size download_id total rest n b
    = (n + Client.total_chunks (Z.of_nat (length rest)) chunk_size,
       b + Z.of_nat (length rest), ms, None)
    ∧ Z.of_nat (length ms)
      = Client.total_chunks (Z.of_nat (length rest)) chunk_size
    ∧ ∀ i, (i < length ms)%nat →
        ms !! i
        = Some (file_chunk download_id (Some (n + Z.of_nat i + 1)) (Some total)
                  (Some (decode_latin1
                           (take (Z.to_nat chunk_size)
                              (drop (i * Z.to_nat chunk_size) rest))))).
Proof.
  intros Hcs.
  funelim (Client.send_loop chunk_size download_id total rest n b).
  - match goal with e : Client.read _ _ = inl _ |- _ =>
      pose proof (read_raises _ _ _ e) as [? _] end. lia.
  - rewrite (read_nil chunk_size _ _ ltac:(lia) e). exists []. simpl.
    unfold Client.total_chunks. rewrite Z.div_small by lia.
    split; [|split].
    + rewrite Z.add_0_r. change (Z.of_nat 0) with 0. by rewrite Z.add_0_r.
    + reflexivity.
    + intros i Hi. lia.
  - match goal with IH : _ → ∃ _, _ |- _ =>
      destruct (IH Hcs) as (ms & -> & Hlen & Hnth) end.
    assert (Hread : c :: chunk = take (Z.to_nat chunk_size) rest
                    ∧ rest' = drop (Z.to_nat chunk_size) rest).
    { pose proof e as e'. revert e'. unfold Client.read.
      destruct (chunk_size <? -1) eqn:E'; [discriminate|].
      destruct (chunk_size <? 0) eqn:E; [apply Z.ltb_lt in E; lia|].
      intros e'. by inversion e'. }
    destruct Hread as [Hchunk ->].
    assert (Hrest : (0 < length rest)%nat).
    { destruct rest; simpl; [|lia]. by rewrite take_nil in Hchunk. }
    assert (Hdrop : Z.of_nat (length (drop (Z.to_nat chunk_size) rest))
                    = Z.max 0 (Z.of_nat (length rest) - chunk_size))
      by (rewrite length_drop; lia).
    rewrite Hdrop in *.
    pose proof (total_chunks_succ (Z.of_nat (length rest)) chunk_size Hcs
                  ltac:(lia)) as Hsucc.
    assert (Hclen : Z.of_nat (length (c :: chunk))
                    = Z.min chunk_size (Z.of_nat (length rest)))
      by (rewrite Hchunk, length_take; lia).
    eexists. split; [|split].
    + rewrite Hsucc, Hclen.
      replace (chunk_num + 1
               + Client.total_chunks
                   (0 `max` (Z.of_nat (length rest) - chunk_size)) chunk_size)
        with (chunk_num
              + (1 + Client.total_chunks
                       (0 `max` (Z.of_nat (length rest) - chunk_size))
                       chunk_size)) by lia.
      replace (bytes_sent + chunk_size `min` Z.of_nat (length rest)
               + 0 `max` (Z.of_nat (length rest) - chunk_size))
        with (bytes_sent + Z.of_nat (length rest)) by lia.
      reflexivity.
    + simpl length. lia.
    + intros [|i] Hi.
      * change (drop (0 * Z.to_nat chunk_size) rest) with rest.
        rewrite <- Hchunk. change (Z.of_nat 0) with 0.
        rewrite Z.add_0_r. reflexivity.
      * simpl in Hi. change ((?x :: ms) !! S i) with (ms !! i).
        rewrite Hnth by lia. rewrite drop_drop.
        replace (chunk_num + 1 + Z.of_nat i + 1)
          with (chunk_num + Z.of_nat (S i) + 1) by lia.
        replace (Z.to_nat chunk_size + i * Z.to_nat chunk_size)%nat
          with (S i * Z.to_nat chunk_size)%nat by lia.
        reflexivity.
Qed.

(** X9. For a chunk size of at least 1, [send_file] on an existing file
    sends exactly [total_chunks] chunk messages followed by
    [file_complete]: the chunk numbered [i + 1] announces [total_chunks]
    and carries the bytes [i * chunk_size, (i + 1) * chunk_size) of the
    file, and [file_complete] carries the size of the file and
    [total_chunks]. *)
Theorem send_file_messages path_str chunk_size disk download_id path content :
  disk !! path_str path = Some (Client.regular content) →
  1 ≤ chunk_size →
  let total := Client.total_chunks (Z.of_nat (length content)) chunk_size in
  ∃ ms,
    Client.send_file path_str chunk_size disk download_id path = (ms, None)
    ∧ length ms = S (Z.to_nat total)
    ∧ (∀ i, (i < Z.to_nat total)%nat →
         ms !! i
         = Some (file_chunk download_id (Some (Z.of_nat i + 1)) (Some total)
                   (Some (decode_latin1
                            (take (Z.to_nat chunk_size)
                               (drop (i * Z.to_nat chunk_size) content))))))
    ∧ ms !! Z.to_nat total
      = Some (file_complete download_id (Some (Z.of_nat (length content)))
                (Some total)).
Proof.
  intros Hdisk Hcs total. unfold Client.send_file. rewrite Hdisk.
  destruct (chunk_size =? 0) eqn:E; [apply Z.eqb_eq in E; lia|]. clear E.
  simpl.
  destruct (send_loop_indexed chunk_size download_id total content 0 0
              ltac:(lia)) as (ms & Hloop & Hlen & Hnth).
  fold total in Hlen, Hloop |- *. rewrite Hloop.
  assert (Hn : length ms = Z.to_nat total) by lia.
  eexists. split; [reflexivity|]. split; [|split].
  - rewrite length_app. simpl. lia.
  - intros i Hi. rewrite lookup_app_l by lia. rewrite Hnth by lia.
    by rewrite Z.add_0_l.
  - rewrite lookup_app_r by lia. rewrite Hn, Nat.sub_diag. simpl.
    by rewrite Z.add_0_l.
Qed.



(** ** The client's answer to a request *)


Lemma chunk_msgs_are_chunks download_id total n chunks :
  Forall (is_chunk download_id) (chunk_msgs download_id total n chunks).
Proof.
  revert n. induction chunks as [|ch chunks IH]; intros n; simpl; [done|].
  constructor; [done|apply IH].
Qed.

Lemma send_loop_are_chunks chunk_size download_id total rest n b :
  Forall (is_chunk download_id)
    (Client.send_loop chunk_size download_id total rest n b).1.2.
Proof.
  funelim (Client.send_loop chunk_size download_id total rest n b);
    simpl; [done|done|].
  match goal with IH : Forall _ _ |- _ => revert IH end.
  destruct (Client.send_loop _ _ _ _ _ _) as [[[? ?] ms] ?]. simpl.
  intros IH. by constructor.
Qed.

(** The shape of the answer to a request. *)
Lemma answer_shape path_str expand chunk_size disk download_id file_path :
  ∃ chunks last,
    Client.handle_download_request path_str expand chunk_size disk download_id
      (Some file_path)
    = (chunks ++ [last], None)
    ∧ Forall (is_chunk download_id) chunks
    ∧ is_signal download_id last.
Proof.
  unfold Client.handle_download_request, Client.send_file.
  destruct (disk !! path_str (expand file_path)) as [[content|size text]|];
    cbn [Client.st_size].
  - destruct (chunk_size =? 0).
    + by exists [], (error download_id (Some (str_exn ZeroDivisionError))).
    + pose proof (send_loop_are_chunks chunk_size download_id
                    (Client.total_chunks (Z.of_nat (length content)) chunk_size)
                    content 0 0) as Hall.
      destruct (Client.send_loop _ _ _ _ _ _) as [[[n b] ms] [e|]];
        simpl in Hall.
      * by exists ms, (error download_id (Some (str_exn e))).
      * by exists ms, (file_complete download_id
                         (Some (Z.of_nat (length content))) (Some n)).
  - destruct (chunk_size =? 0).
    + by exists [], (error download_id (Some (str_exn ZeroDivisionError))).
    + by exists [], (error download_id (Some (str_exn (IsADirectoryError text)))).
  - by exists [], (error download_id
                     (Some (str_exn (FileNotFoundError
                                       (path_str (expand file_path)))))).
Qed.


(** ** The client's message loop *)

(** X13. The client serves its requests one after the other: as long as
    the frames read so far neither close the connection nor hold a request
    without a path, what the loop sends for them and for the frames that
    follow is what it sends for the first followed by what it sends for the
    second, so the answers to two requests never interleave. *)
Theorem client_loop_sequential path_str expand chunk_size disk f1 f2 :
  runs_through f1 →
  Client.message_loop path_str expand chunk_size disk (f1 ++ f2)
  = Client.message_loop path_str expand chunk_size disk f1
    ++ Client.message_loop path_str expand chunk_size disk f2.
Proof.
  induction 1 as [|f f1 (Hc & He & Hreq) _ IH]; [done|].
  destruct f as [m| | |]; [|by destruct Hc|by destruct He|exact IH].
  rewrite <- app_comm_cons.
  destruct m as [| |id [path|]| | | | | |]; cbn [Client.message_loop];
    try exact IH.
  - destruct (answer_shape path_str expand chunk_size disk id path)
      as (chunks & last & -> & _).
    by rewrite IH, app_assoc.
  - by destruct (Hreq id).
  - by rewrite IH.
Qed.

Lemma filter_pong_answer path_str expand chunk_size disk id path ms :
  Client.handle_download_request path_str expand chunk_size disk id (Some path)
  = (ms, None) → filter is_pong ms = [].
Proof.
  destruct (answer_shape path_str expand chunk_size disk id path)
    as (chunks & last & -> & Hchunks & Hlast).
  intros H; inversion H; subst. clear H. rewrite filter_app.
  assert (filter is_pong chunks = []) as ->.
  { induction Hchunks as [|m ms' Hm _ IH]; [done|].
    rewrite filter_cons. by destruct m. }
  rewrite filter_cons. by destruct last.
Qed.

(** X14. Every [ping] that the loop reads is answered by one [pong] and
    nothing else produces a [pong]: as long as the loop reads all its
    frames, it sends as many [pong]s as there are [ping]s among them. *)
Theorem every_ping_one_pong path_str expand chunk_size disk frames :
  runs_through frames →
  length (filter is_pong (Client.message_loop path_str expand chunk_size disk frames))
  = length (filter is_ping frames).
Proof.
  induction 1 as [|f frames (Hc & He & Hreq) _ IH]; [done|].
  destruct f as [m| | |]; [|by destruct Hc|by destruct He|exact IH].
  destruct m as [| |id [path|]| | | | | |]; cbn [Client.message_loop];
    try exact IH.
  - destruct (Client.handle_download_request path_str expand chunk_size disk id
                (Some path)) as [ms [e|]] eqn:E.
    + destruct (answer_shape path_str expand chunk_size disk id path)
        as (? & ? & E' & _). rewrite E in E'. discriminate.
    + rewrite filter_app, (filter_pong_answer _ _ _ _ _ _ _ E). exact IH.
  - by destruct (Hreq id).
  - rewrite !filter_cons. simpl. by rewrite IH.
Qed.

(** X15. Nothing is read after [CLOSED] or [ERROR]: the frames that
    follow one of them change nothing of what the loop sends. *)
Theorem client_loop_stops_at_close path_str expand chunk_size disk pre post :
  Client.message_loop path_str expand chunk_size disk (pre ++ Client.CLOSED :: post)
  = Client.message_loop path_str expand chunk_size disk pre
  ∧ Client.message_loop path_str expand chunk_size disk (pre ++ Client.ERROR :: post)
    = Client.message_loop path_str expand chunk_size disk pre.
Proof.
  split; induction pre as [|f pre IH]; try done;
    rewrite <- app_comm_cons;
    (destruct f as [m| | |]; try done;
     destruct m as [| |id path| | | | | |]; try done;
     cbn [Client.message_loop];
     [ destruct (Client.handle_download_request path_str expand chunk_size disk id path)
         as [ms [e|]]; [done|by rewrite IH]
     | by rewrite IH ]).
Qed.

(** ** The WebSocket URL *)

Lemma prefix_app old s : String.prefix old (old +:+ s) = true.
Proof.
  induction old as [|a old IH]; simpl; [by destruct s|].
  destruct (Ascii.ascii_dec a a); [exact IH|done].
Qed.

Lemma drop_string_app old s :
  Client.drop_string (String.length old) (old +:+ s) = s.
Proof. induction old as [|a old IH]; simpl; [by destruct s|exact IH]. Qed.

Lemma replace_from_absent old new s :
  occurs old s = false → Client.replace_from old new s = s.
Proof.
  funelim (Client.replace_from old new s); intros Hocc.
  - reflexivity.
  - simpl in Hocc. apply orb_false_iff in Hocc as [Hp _].
    simpl in e. congruence.
  - simpl in Hocc. apply orb_false_iff in Hocc as [_ Hs].
    f_equal. match goal with IH : _ → _ = _ |- _ => by apply IH end.
Qed.

Lemma replace_from_prefix a old new s :
  Client.replace_from (String a old) new (String a old +:+ s)
  = new +:+ Client.replace_from (String a old) new s.
Proof.
  remember (String a old) as pat eqn:Hpat.
  remember (pat +:+ s) as s0 eqn:Hs0.
  funelim (Client.replace_from pat new s0).
  - discriminate.
  - match goal with H : String _ _ = String _ _ +:+ _ |- _ =>
      simpl in H; inversion H; subst end.
    replace (String.length (String a old0) - 1)%nat with (String.length old0)
      by (simpl; lia).
    by rewrite drop_string_app.
  - exfalso.
    match goal with H : String _ _ = String ?a ?o +:+ ?t |- _ =>
      pose proof (prefix_app (String a o) t) as Hp; rewrite <- H in Hp end.
    congruence.
Qed.

(** X16. The URL of the WebSocket: for a server URL that is a scheme
    followed by a rest in which neither ["http://"] nor ["https://"]
    occurs, ["http://"] becomes ["ws://"] and ["https://"] becomes
    ["wss://"], and ["/ws"] is added at the end; a URL in which neither
    occurs at all is kept and only gets ["/ws"] at the end. *)
Theorem ws_url_scheme rest :
  occurs "http://" rest = false →
  occurs "https://" rest = false →
  Client.ws_url ("http://" +:+ rest) = "ws://" +:+ rest +:+ "/ws"
  ∧ Client.ws_url ("https://" +:+ rest) = "wss://" +:+ rest +:+ "/ws"
  ∧ Client.ws_url rest = rest +:+ "/ws".
Proof.
  intros H1 H2. unfold Client.ws_url, Client.replace. repeat split.
  - rewrite (replace_from_prefix _ "ttp://" "ws://" rest).
    rewrite (replace_from_absent _ _ rest H1).
    rewrite (replace_from_absent "https://" _ ("ws://" +:+ rest)); [done|].
    simpl. exact H2.
  - rewrite (replace_from_absent "http://" _ ("https://" +:+ rest)).
    + rewrite (replace_from_prefix _ "ttps://" "wss://" rest).
      by rewrite (replace_from_absent _ _ rest H2).
    + simpl. exact H1.
  - by rewrite (replace_from_absent _ _ rest H1),
      (replace_from_absent _ _ rest H2).
Qed.

Lemma ws_url_scheme_witness :
  Client.ws_url ("http://" +:+ "localhost:8080") = "ws://" +:+ "localhost:8080" +:+ "/ws"
  ∧ Client.ws_url ("https://" +:+ "localhost:8080")
    = "wss://" +:+ "localhost:8080" +:+ "/ws"
  ∧ Client.ws_url "localhost:8080" = "localhost:8080" +:+ "/ws".
Proof. apply (ws_url_scheme "localhost:8080"); reflexivity. Defined.

(** The replacement is made everywhere in the URL, not only at its
    start. *)
Example ws_url_inner_occurrence :
  Client.ws_url "http://host/?next=http://other"
  = "ws://host/?next=ws://other/ws".
Proof. reflexivity. Qed.

Example replace_empty_pattern : Client.replace "" "x" "abc" = "xaxbxcx".
Proof. reflexivity. Qed.

(** ** Dispatch to a registered client *)

(** The successful dispatch. *)
Lemma trigger_download_registered path_join download_dir client remote uuid
    now1 now2 s w :
  client ≠ "" →
  Server.connected_clients s !! Some client = Some w →
  w ∉ Server.closed s →
  let remote_path := default "$HOME/file_to_download.txt" remote in
  let r := Server.trigger_download path_join download_dir (Some client) remote
             uuid now1 now2 s in
  r.2 = {| Server.resp_body :=
             Server.success_body uuid
               ("Download request sent to client " +:+ client);
           Server.resp_status := 200 |}
  ∧ Server.sent r.1
    = Server.sent s ++ [(w, download_request (Some uuid) (Some remote_path))]
  ∧ Server.get_download_status uuid r.1
    = Some {| Server.d_download_id := uuid; Server.d_client_id := client;
              Server.d_file_path :=
                path_join download_dir (Server.local_filename client now1);
              Server.d_remote_path := remote_path;
              Server.d_status := Server.downloading;
              Server.d_started_at := now2;
              Server.d_chunks_received := Some 0;
              Server.d_completed_at := None; Server.d_total_size := None;
              Server.d_error := None |}
  ∧ (∀ k, k ≠ uuid →
       Server.get_download_status k r.1 = Server.get_download_status k s)
  ∧ Server.connected_clients r.1 = Server.connected_clients s
  ∧ Server.files r.1 = Server.files s.
Proof.
  intros Hne Hw Hopen remote_path r. subst r.
  unfold Server.trigger_download, Server.get_download_status.
  rewrite (truthy_Some _ Hne), Hw. simpl.
  unfold Server.send_json. simpl. rewrite decide_False by done. simpl.
  rewrite lookup_insert_eq. repeat split.
  intros k Hk. by rewrite lookup_insert_ne.
Qed.

(** X17. A dispatch to a non-empty identity registered on an open
    WebSocket answers 200 with the new [download_id], sends one
    [download_request] with that id and the requested path (the default
    path when none is given) on that WebSocket, and creates the record of
    the download in state [downloading] with no chunk received; the other
    records, the registry and the files are untouched. *)
Theorem dispatch_registered path_join download_dir client remote uuid
    now1 now2 s w :
  client ≠ "" →
  Server.connected_clients s !! Some client = Some w →
  w ∉ Server.closed s →
  let remote_path := default "$HOME/file_to_download.txt" remote in
  let r := Server.trigger_download path_join download_dir (Some client) remote
             uuid now1 now2 s in
  r.2 = {| Server.resp_body :=
             Server.success_body uuid
               ("Download request sent to client " +:+ client);
           Server.resp_status := 200 |}
  ∧ Server.sent r.1
    = Server.sent s ++ [(w, download_request (Some uuid) (Some remote_path))]
  ∧ Server.get_download_status uuid r.1
    = Some {| Server.d_download_id := uuid; Server.d_client_id := client;
              Server.d_file_path :=
                path_join download_dir (Server.local_filename client now1);
              Server.d_remote_path := remote_path;
              Server.d_status := Server.downloading;
              Server.d_started_at := now2;
              Server.d_chunks_received := Some 0;
              Server.d_completed_at := None; Server.d_total_size := None;
              Server.d_error := None |}
  ∧ (∀ k, k ≠ uuid →
       Server.get_download_status k r.1 = Server.get_download_status k s)
  ∧ Server.connected_clients r.1 = Server.connected_clients s
  ∧ Server.files r.1 = Server.files s.
Proof.
  intros Hne Hw Hopen remote_path r. subst r.
  unfold Server.trigger_download, Server.get_download_status.
  rewrite (truthy_Some _ Hne), Hw. simpl.
  unfold Server.send_json. simpl. rewrite decide_False by done. simpl.
  rewrite lookup_insert_eq. repeat split.
  intros k Hk. by rewrite lookup_insert_ne.
Qed.

Lemma register_effect now client_id c s :
  Server.ws c ∉ Server.closed s →
  Server.on_message now (register client_id) c s
  = ({| Server.ws := Server.ws c; Server.client_id := client_id |},
     {| Server.connected_clients :=
          <[client_id := Server.ws c]> (Server.connected_clients s);
        Server.downloads := Server.downloads s;
        Server.files := Server.files s;
        Server.sent := Server.sent s
                       ++ [(Server.ws c, registered "Successfully registered")];
        Server.closed := Server.closed s |}, None).
Proof.
  intros Hopen. simpl. unfold Server.send_json. simpl.
  by rewrite decide_False.
Qed.

(** X18. The last registration wins: after a [register] for a non-empty
    identity on an open WebSocket, whatever the registry held for that
    identity before, the acknowledgement [registered] is sent on that
    WebSocket, the entries of the other identities are unchanged, and a
    dispatch to the identity sends its [download_request] on that
    WebSocket. *)
Theorem registration_last_wins path_join download_dir now client c s remote
    uuid now1 now2 :
  client ≠ "" →
  Server.ws c ∉ Server.closed s →
  let r := Server.on_message now (register (Some client)) c s in
  let d := Server.trigger_download path_join download_dir (Some client) remote
             uuid now1 now2 r.1.2 in
  r.2 = None
  ∧ Server.sent r.1.2
    = Server.sent s ++ [(Server.ws c, registered "Successfully registered")]
  ∧ (∀ other, other ≠ Some client →
       Server.connected_clients r.1.2 !! other
       = Server.connected_clients s !! other)
  ∧ Server.resp_status d.2 = 200
  ∧ last (Server.sent d.1)
    = Some (Server.ws c,
            download_request (Some uuid)
              (Some (default "$HOME/file_to_download.txt" remote))).
Proof.
  intros Hne Hopen r d. subst d r. rewrite (register_effect _ _ _ _ Hopen).
  cbn [fst snd]. split; [done|]. split; [done|]. split.
  { intros other Hother. simpl. by rewrite lookup_insert_ne. }
  match goal with |- context [Server.trigger_download _ _ _ _ _ _ _ ?s1] =>
    destruct (trigger_download_registered path_join download_dir client remote uuid
                now1 now2 s1 (Server.ws c) Hne) as (Hr & Hsent & _) end.
  { simpl. apply lookup_insert_eq. }
  { exact Hopen. }
  cbn zeta in Hr, Hsent. rewrite Hr, Hsent. split; [done|].
  by rewrite last_snoc.
Qed.

Lemma loop_without_register tms c s :
  Forall not_register tms →
  let r := Server.message_loop tms c s in
  r.1.1 = c
  ∧ Server.connected_clients r.1.2 = Server.connected_clients s.
Proof.
  intros H. revert s. induction H as [|[now m] tms Hm _ IH]; intros s; [done|].
  simpl. pose proof (on_message_frame now m c s) as [Hf _].
  destruct (Hf Hm) as (Hc & Hreg & _).
  destruct (Server.on_message now m c s) as [[c1 s1] [e|]]; simpl in *.
  - done.
  - subst c1. destruct (IH s1) as [IH1 IH2]. split; [done|congruence].
Qed.

(** X19. A connection that registered the empty identity is never
    unregistered: after the connection has ended its closed WebSocket is
    still in the registry under [""], and a dispatch to that identity is
    refused with [MissingField]. *)
Theorem empty_identity_never_removed path_join download_dir ws now tms s
    remote uuid now1 now2 :
  ws ∉ Server.closed s →
  Forall not_register tms →
  let s' := (Server.websocket_handler ws ((now, register (Some "")) :: tms) s).1 in
  Server.connected_clients s' !! Some "" = Some ws
  ∧ ws ∈ Server.closed s'
  ∧ (Server.trigger_download path_join download_dir (Some "") remote uuid
       now1 now2 s').2 = Server.MissingField.
Proof.
  intros Hopen Htms s'. subst s'. unfold Server.websocket_handler.
  cbn [Server.message_loop].
  rewrite (register_effect now (Some "")
             {| Server.ws := ws; Server.client_id := None |} s Hopen).
  match goal with |- context [Server.message_loop tms ?c ?s1] =>
    pose proof (loop_without_register tms c s1 Htms) as [Hc Hreg];
    destruct (Server.message_loop tms c s1) as [[c' s2] e] end.
  simpl in Hc, Hreg. subst c'. simpl.
  rewrite Hreg, lookup_insert_eq. repeat split. set_solver.
Qed.

(** X20. Only the identity registered last on a connection is removed
    when the connection ends: an identity registered before it on the same
    WebSocket stays in the registry, bound to the closed WebSocket. *)
Theorem earlier_identity_stays ws now1 now2 first last_id tms s :
  ws ∉ Server.closed s →
  first ≠ last_id →
  Server.truthy last_id = true →
  Forall not_register tms →
  let s' := (Server.websocket_handler ws
               ((now1, register first) :: (now2, register last_id) :: tms) s).1 in
  Server.connected_clients s' !! first = Some ws
  ∧ Server.connected_clients s' !! last_id = None
  ∧ ws ∈ Server.closed s'.
Proof.
  intros Hopen Hne Htruthy Htms s'. subst s'. unfold Server.websocket_handler.
  cbn [Server.message_loop].
  rewrite (register_effect now1 first
             {| Server.ws := ws; Server.client_id := None |} s Hopen).
  cbn [Server.ws].
  match goal with |- context [Server.on_message now2 _ ?c ?s1] =>
    rewrite (register_effect now2 last_id c s1 Hopen) end.
  match goal with |- context [Server.message_loop tms ?c ?s1] =>
    pose proof (loop_without_register tms c s1 Htms) as [Hc Hreg];
    destruct (Server.message_loop tms c s1) as [[c' s2] e] end.
  simpl in Hc, Hreg. subst c'. unfold Server.on_disconnect. simpl.
  rewrite Htruthy, Hreg. rewrite lookup_insert_eq. simpl.
  rewrite lookup_delete_eq, lookup_delete_ne, lookup_insert_ne, lookup_insert_eq
    by done.
  repeat split. set_solver.
Qed.

(** ** The read-only endpoints *)

Lemma active_downloads_insert_None m k d :
  m !! k = None →
  active_downloads (<[k := d]> m) = (active d + active_downloads m)%nat.
Proof.
  intros Hk. unfold active_downloads, active.
  rewrite (map_to_list_insert m k d Hk). rewrite fmap_cons, filter_cons. simpl.
  by case_decide.
Qed.

Lemma active_downloads_insert_Some m k d0 d :
  m !! k = Some d0 →
  (active_downloads (<[k := d]> m) + active d0
   = active_downloads m + active d)%nat.
Proof.
  intros Hk.
  rewrite <- (insert_delete_eq m k d).
  rewrite <- (insert_delete_id m k d0 Hk) at 2.
  rewrite !active_downloads_insert_None by apply lookup_delete_eq. lia.
Qed.

(** X21. A dispatch to a registered client under a [download_id] that is
    not yet in the table adds one to the [active_downloads] that
    [health_check] reports and leaves its [connected_clients] as it was. *)
Theorem health_after_dispatch path_join download_dir client remote uuid
    now1 now2 s :
  client ≠ "" →
  is_Some (Server.connected_clients s !! Some client) →
  Server.downloads s !! uuid = None →
  Server.health_check
    (Server.trigger_download path_join download_dir (Some client) remote uuid
       now1 now2 s).1
  = ((Server.health_check s).1, S (Server.health_check s).2).
Proof.
  intros Hne [w Hw] Hfresh. unfold Server.trigger_download.
  rewrite (truthy_Some _ Hne), Hw. simpl. unfold Server.send_json. simpl.
  case_decide; unfold Server.health_check; simpl; f_equal;
    fold (active_downloads (Server.downloads s));
    match goal with |- context [<[uuid := ?d]> _] =>
      fold (active_downloads (<[uuid := d]> (Server.downloads s)));
      by rewrite (active_downloads_insert_None _ _ d Hfresh) end.
Qed.

(** X22. When [file_complete] or [error] arrives for a download that is in
    state [downloading], the [active_downloads] that [health_check] reports
    goes down by one, and its [connected_clients] stays as it was. *)
Theorem health_after_signal now k info total_size error_msg s :
  Server.downloads s !! k = Some info →
  Server.d_status info = Server.downloading →
  let h := Server.health_check s in
  let h1 := Server.health_check
              (Server.handle_file_complete now (Some k) total_size s).1 in
  let h2 := Server.health_check
              (Server.handle_client_error (Some k) error_msg s).1 in
  h1.1 = h.1 ∧ S h1.2 = h.2 ∧ h2.1 = h.1 ∧ S h2.2 = h.2.
Proof.
  intros Hk Hst h h1 h2. subst h h1 h2.
  rewrite (handle_file_complete_known _ _ _ _ _ Hk),
    (handle_client_error_known _ _ _ _ Hk).
  unfold Server.health_check. simpl.
  fold (active_downloads (Server.downloads s)).
  fold (active_downloads
          (<[k := Server.set_completed now total_size info]> (Server.downloads s))).
  fold (active_downloads
          (<[k := Server.set_failed error_msg info]> (Server.downloads s))).
  pose proof (active_downloads_insert_Some _ k info
                (Server.set_completed now total_size info) Hk) as H1.
  pose proof (active_downloads_insert_Some _ k info
                (Server.set_failed error_msg info) Hk) as H2.
  unfold active in H1, H2. cbn [Server.d_status Server.set_completed
    Server.set_failed] in H1, H2. rewrite Hst in H1, H2.
  repeat case_decide; try done; lia.
Qed.

(** X23. [list_clients] and [health_check] agree and say who can be
    reached: the list names every registered identity once, its length is
    the [connected_clients] of [health_check], and a non-empty identity is
    in the list exactly when a dispatch to it is not refused with
    [ClientNotConnected]. *)
Theorem listed_iff_dispatchable path_join download_dir client remote uuid
    now1 now2 s :
  client ≠ "" →
  NoDup (Server.list_clients s)
  ∧ length (Server.list_clients s) = (Server.health_check s).1
  ∧ (Some client ∈ Server.list_clients s
     ↔ (Server.trigger_download path_join download_dir (Some client) remote
          uuid now1 now2 s).2 ≠ Server.ClientNotConnected client).
Proof.
  intros Hne. unfold Server.list_clients, Server.health_check. simpl.
  split; [apply NoDup_fst_map_to_list|].
  split; [by rewrite length_fmap, length_map_to_list|].
  rewrite list_elem_of_fmap. split.
  - intros ([k w] & Hk & Hin). simpl in Hk. subst k.
    apply elem_of_map_to_list in Hin.
    unfold Server.trigger_download. rewrite (truthy_Some _ Hne), Hin. simpl.
    unfold Server.send_json. by case_decide.
  - intros Hresp.
    destruct (Server.connected_clients s !! Some client) as [w|] eqn:E.
    + exists (Some client, w). split; [done|]. by apply elem_of_map_to_list.
    + destruct Hresp. unfold Server.trigger_download.
      by rewrite (truthy_Some _ Hne), E.
Qed.

(** ** Polling *)

(** X24. [poll_download_status] sleeps once after every reply that is
    neither a record in a final state nor an exception, ends at the first
    reply that is one, and does not look at the replies after it; while
    there is none it keeps polling. *)
Theorem poll_stops_at_first_final pre :
  Forall (λ r, reply_final r = None) pre →
  Server.poll_download_status pre = (Server.polling, length pre)
  ∧ ∀ r outcome post,
      reply_final r = Some outcome →
      Server.poll_download_status (pre ++ r :: post) = (outcome, length pre).
Proof.
  induction 1 as [|r0 pre Hr0 _ [IH1 IH2]].
  - split; [done|]. intros r outcome post Hr. simpl.
    destruct r as [d| |]; simpl in *; [|done|by inversion Hr].
    destruct (Server.d_status d); by inversion Hr.
  - split.
    + destruct r0 as [d| |]; simpl in *; [|by rewrite IH1|done].
      destruct (Server.d_status d); try done. by rewrite IH1.
    + intros r outcome post Hr. specialize (IH2 r outcome post Hr).
      destruct r0 as [d| |]; simpl in *; [|by rewrite IH2|done].
      destruct (Server.d_status d); try done. by rewrite IH2.
Qed.

(** X25. Nothing marks a download as failed when its client goes away: a
    connection that sends chunks of a download in state [downloading] and
    ends without [file_complete] or [error] leaves the record in state
    [downloading], so that polling its status never ends. *)
Theorem interrupted_transfer_stays_downloading ws
    (tms : list (Server.datetime * msg)) total chunks k info s :
  Server.downloads s !! k = Some info →
  Server.d_status info = Server.downloading →
  tms.*2 = chunk_msgs (Some k) total 0 chunks →
  ∃ s' d,
    Server.websocket_handler ws tms s = (s', None)
    ∧ Server.get_download_status k s' = Some d
    ∧ Server.d_status d = Server.downloading
    ∧ ∀ n, Server.poll_download_status (replicate n (Server.reply_of k s'))
           = (Server.polling, n).
Proof.
  intros Hk Hst Htms. unfold Server.websocket_handler.
  destruct (message_loop_chunks chunks tms total 0
              {| Server.ws := ws; Server.client_id := None |} s k info Hk Htms)
    as (s1 & -> & (_ & _ & _ & _ & Hd & _)).
  eexists _, _. split; [reflexivity|].
  unfold Server.get_download_status, Server.reply_of,
    Server.get_download_status. simpl. rewrite Hd.
  split; [reflexivity|]. split; [exact Hst|].
  intros n. induction n as [|n IH]; [done|]. simpl. rewrite Hst.
  simpl in IH. by rewrite IH.
Qed.

(** ** From the dispatch to the file *)

(** X26. End to end: after a dispatch to a registered client whose disk
    has the requested path as a regular file, which is taken not to change
    while it is sent, and whose chunk size is at least 1, what the client
    answers to the
    [download_request] that the server sent makes the server, once it has
    handled it, hold the bytes of the file at the end of the destination
    file and report the download as [completed] with the size of the file,
    which stops the polling at once. *)
Theorem dispatch_then_transfer path_join download_dir path_str expand chunk_size disk
    client path content uuid now1 now2 s w c :
  client ≠ "" →
  Server.connected_clients s !! Some client = Some w →
  w ∉ Server.closed s →
  disk !! path_str (expand path) = Some (Client.regular content) →
  1 ≤ chunk_size →
  let r := Server.trigger_download path_join download_dir (Some client)
             (Some path) uuid now1 now2 s in
  let dest := path_join download_dir (Server.local_filename client now1) in
  last (Server.sent r.1) = Some (w, download_request (Some uuid) (Some path))
  ∧ ∃ ms,
      Client.handle_download_request path_str expand chunk_size disk (Some uuid)
        (Some path) = (ms, None)
      ∧ ∀ tms : list (Server.datetime * msg), tms.*2 = ms →
          ∃ s' d,
            Server.message_loop tms c r.1 = (c, s', None)
            ∧ Server.get_download_status uuid s' = Some d
            ∧ Server.d_status d = Server.completed
            ∧ Server.d_total_size d = Some (Z.of_nat (length content))
            ∧ Server.d_file_path d = dest
            ∧ default [] (Server.files s' !! dest)
              = default [] (Server.files s !! dest) ++ content
            ∧ Server.poll_download_status [Server.reply_of uuid s']
              = (Server.poll_completed d, 0%nat).
Proof.
  intros Hne Hw Hopen Hdisk Hcs r dest.
  destruct (trigger_download_registered path_join download_dir client (Some path) uuid
              now1 now2 s w Hne Hw Hopen) as (_ & Hsent & Hrec & _ & _ & Hfiles).
  cbn zeta in Hsent, Hrec, Hfiles. fold r in Hsent, Hrec, Hfiles.
  split; [by rewrite Hsent, last_snoc|].
  unfold Server.get_download_status in Hrec.
  destruct (transfer_run path_str chunk_size disk (expand path) content uuid
              _ r.1 c Hdisk Hcs Hrec) as (ms & Hms & _ & Hrun).
  exists ms. split.
  { unfold Client.handle_download_request. by rewrite Hms. }
  intros tms Htms. destruct (Hrun tms Htms) as (s1 & now & rcv & Hloop & Happ).
  eexists _, _. split; [exact Hloop|].
  unfold Server.reply_of, Server.get_download_status. simpl.
  rewrite lookup_insert_eq. simpl.
  repeat split.
  destruct Happ as (_ & _ & _ & _ & _ & _ & Hcontent). simpl in Hcontent.
  fold dest in Hcontent. by rewrite Hcontent, Hfiles.
Qed.

(** ** The names of the destination files *)

(** X27. For times whose fields are in range, two dispatches for the same
    client get the same destination file name exactly when they happen
    within the same second. *)
Theorem destination_names_differ_by_second client t t' :
  in_range t → in_range t' →
  Server.local_filename client t = Server.local_filename client t'
  ↔ same_second t t'.
Proof.
  intros (_ & Hy & Hm & Hd & HH & HM & HS) (_ & Hy' & Hm' & Hd' & HH' & HM' & HS').
  split.
  - unfold Server.local_filename. intros H. apply append_cancel_l in H.
    unfold Server.strftime, Server.digits4, Server.digits2, Server.digit in H.
    cbn [String.append] in H.
    injection H as E1 E2 E3 E4 E5 E6 E7 E8 E9 E10 E11 E12 E13 E14.
    apply digit_char_inj in E1, E2, E3, E4, E5, E6, E7, E8, E9, E10, E11, E12,
      E13, E14.
    unfold same_second.
    repeat split; auto using two_digits_inj, four_digits_inj.
  - intros H. unfold Server.local_filename.
    by rewrite (strftime_same_second _ _ H).
Qed.

(** ** The statements above on the scenario *)

Lemma chunk_bad_payload_witness :
  let r := Server.handle_file_chunk (Some "d1") (Some [300%N]) (Some 1)
             Scenario.s0 in
  r.2 = Some UnicodeEncodeError
  ∧ Server.downloads r.1 = Server.downloads Scenario.s0
  ∧ Server.files r.1 !! Server.d_file_path Scenario.info0
    = Some (default []
              (Server.files Scenario.s0 !! Server.d_file_path Scenario.info0))
  ∧ ∀ p, p ≠ Server.d_file_path Scenario.info0 →
      Server.files r.1 !! p = Server.files Scenario.s0 !! p.
Proof.
  apply (chunk_bad_payload "d1" Scenario.info0 (Some [300%N]) (Some 1)
           Scenario.s0); reflexivity.
Defined.

Lemma signals_unknown_download_witness :
  Server.handle_file_complete Scenario.t0 (Some "d9") (Some 5) Scenario.s0
  = (Scenario.s0, None)
  ∧ Server.handle_client_error (Some "d9") (Some "late") Scenario.s0
    = (Scenario.s0, None).
Proof.
  apply (signals_unknown_download Scenario.t0 (Some "d9") (Some 5)
           (Some "late") Scenario.s0).
  intros k Hk. injection Hk as <-. reflexivity.
Defined.

Example signals_unhashable_id_raise :
  Server.handle_file_complete Scenario.t0 (ident_unhashable "[1]") (Some 5)
    Scenario.s0 = (Scenario.s0, Some TypeError)
  ∧ Server.handle_client_error (ident_unhashable "{}") (Some "late")
      Scenario.s0 = (Scenario.s0, Some TypeError).
Proof. split; reflexivity. Qed.

Lemma complete_without_size_witness :
  let r := Server.handle_file_complete Scenario.t1 (Some "d1") None
             Scenario.s0 in
  r.2 = Some TypeError
  ∧ Server.downloads r.1 !! "d1"
    = Some (Server.set_completed Scenario.t1 None Scenario.info0)
  ∧ Server.files r.1 = Server.files Scenario.s0.
Proof.
  apply (complete_without_size Scenario.t1 "d1" Scenario.info0 Scenario.s0).
  reflexivity.
Defined.

Lemma exception_ends_connection_witness :
  Server.websocket_handler 1
    ([(Scenario.t0, register (Some "site-7"))]
     ++ (Scenario.t0, file_chunk (Some "d1") (Some 1) (Some 3) None)
        :: [(Scenario.t1, file_complete (Some "d1") (Some 5) (Some 3))])
    Scenario.s0
  = (Server.on_disconnect Scenario.c1
       (Server.open_ab (Server.d_file_path Scenario.info0)
          (Server.on_message Scenario.t0 (register (Some "site-7"))
             {| Server.ws := 1; Server.client_id := None |} Scenario.s0).1.2),
     Some AttributeError).
Proof.
  apply (exception_ends_connection 1
           [(Scenario.t0, register (Some "site-7"))] Scenario.t0
           (file_chunk (Some "d1") (Some 1) (Some 3) None)
           [(Scenario.t1, file_complete (Some "d1") (Some 5) (Some 3))]
           Scenario.s0 Scenario.c1
           (Server.on_message Scenario.t0 (register (Some "site-7"))
              {| Server.ws := 1; Server.client_id := None |} Scenario.s0).1.2);
    reflexivity.
Defined.

Lemma connection_keeps_downloads_witness :
  ∃ d',
    Server.downloads
      (Server.websocket_handler 1
         [(Scenario.t0, error (Some "d1") (Some "disk error"))]
         Scenario.s0).1 !! "d1" = Some d'
    ∧ same_download Scenario.info0 d'.
Proof.
  apply (connection_keeps_downloads 1
           [(Scenario.t0, error (Some "d1") (Some "disk error"))]
           Scenario.s0 "d1" Scenario.info0).
  reflexivity.
Defined.

Lemma files_append_only_witness :
  ∃ extra,
    Server.files
      (Server.websocket_handler 1
         [(Scenario.t0, file_chunk (Some "d1") (Some 4) (Some 4) (Some [120%N]))]
         Scenario.s_completed).1
      !! "downloads/site-7_20240517_093012_file_to_download.txt"
    = Some (["a"; "b"; "c"; "d"; "e"]%byte ++ extra).
Proof.
  apply (files_append_only 1
           [(Scenario.t0, file_chunk (Some "d1") (Some 4) (Some 4) (Some [120%N]))]
           Scenario.s_completed
           "downloads/site-7_20240517_093012_file_to_download.txt"
           ["a"; "b"; "c"; "d"; "e"]%byte).
  reflexivity.
Defined.

Lemma send_file_messages_witness :
  let total := Client.total_chunks (Z.of_nat (length ["a"; "b"; "c"; "d"; "e"]%byte)) 2 in
  ∃ ms,
    Client.send_file (λ p, p) 2 Scenario.disk0 (Some "d1") "/home/u/report.csv"
    = (ms, None)
    ∧ length ms = S (Z.to_nat total)
    ∧ (∀ i, (i < Z.to_nat total)%nat →
         ms !! i
         = Some (file_chunk (Some "d1") (Some (Z.of_nat i + 1)) (Some total)
                   (Some (decode_latin1
                            (take (Z.to_nat 2)
                               (drop (i * Z.to_nat 2)
                                  ["a"; "b"; "c"; "d"; "e"]%byte))))))
    ∧ ms !! Z.to_nat total
      = Some (file_complete (Some "d1")
                (Some (Z.of_nat (length ["a"; "b"; "c"; "d"; "e"]%byte)))
                (Some total)).
Proof.
  apply (send_file_messages (λ p, p) 2 Scenario.disk0 (Some "d1")
           "/home/u/report.csv" ["a"; "b"; "c"; "d"; "e"]%byte);
    [reflexivity | lia].
Defined.


Example negative_chunk_size_announces :
  Client.total_chunks 5 (-1) = -3.
Proof. reflexivity. Qed.

Example chunk_size_below_minus_one_raises :
  Client.handle_download_request (λ p, p) (λ p, p) (-2) Scenario.disk0
    (Some "d1") (Some "/home/u/report.csv")
  = ([error (Some "d1") (Some "read length must be non-negative or -1")], None).
Proof. reflexivity. Qed.

Example directory_request_raises :
  Client.handle_download_request (λ p, p) (λ p, p) 2 Scenario.disk0
    (Some "d1") (Some "/home/u")
  = ([error (Some "d1") (Some "[Errno 21] Is a directory: '/home/u'")], None).
Proof. reflexivity. Qed.


Lemma client_loop_sequential_witness :
  Client.message_loop (λ p, p) (λ p, p) 2 Scenario.disk0
    ([Client.TEXT ping;
      Client.TEXT (download_request (Some "d1") (Some "/home/u/report.csv"))]
     ++ [Client.TEXT (download_request (Some "d2") (Some "/home/u/none"))])
  = Client.message_loop (λ p, p) (λ p, p) 2 Scenario.disk0
      [Client.TEXT ping;
       Client.TEXT (download_request (Some "d1") (Some "/home/u/report.csv"))]
    ++ Client.message_loop (λ p, p) (λ p, p) 2 Scenario.disk0
         [Client.TEXT (download_request (Some "d2") (Some "/home/u/none"))].
Proof.
  apply client_loop_sequential.
  repeat constructor; try discriminate; intros; discriminate.
Defined.

Example client_loop_scenario :
  Client.message_loop (λ p, p) (λ p, p) 2 Scenario.disk0
    [Client.TEXT ping;
     Client.TEXT (download_request (Some "d1") (Some "/home/u/report.csv"));
     Client.TEXT (download_request (Some "d2") (Some "/home/u/none"))]
  = pong :: Scenario.sent0
    ++ [error (Some "d2") (Some "File not found: /home/u/none")].
Proof. reflexivity. Qed.

Lemma every_ping_one_pong_witness :
  length (filter is_pong
            (Client.message_loop (λ p, p) (λ p, p) 2 Scenario.disk0
               [Client.TEXT ping;
                Client.TEXT (download_request (Some "d1")
                               (Some "/home/u/report.csv"));
                Client.BINARY; Client.TEXT ping]))
  = length (filter is_ping
              [Client.TEXT ping;
               Client.TEXT (download_request (Some "d1")
                              (Some "/home/u/report.csv"));
               Client.BINARY; Client.TEXT ping]).
Proof.
  apply every_ping_one_pong.
  repeat constructor; try discriminate; intros; discriminate.
Defined.

Lemma dispatch_registered_witness :
  let remote_path := default "$HOME/file_to_download.txt" None in
  let r := Server.trigger_download Scenario.join "downloads" (Some "site-7")
             None "d2" Scenario.t0 Scenario.t1 Scenario.s0 in
  r.2 = {| Server.resp_body :=
             Server.success_body "d2"
               ("Download request sent to client " +:+ "site-7");
           Server.resp_status := 200 |}
  ∧ Server.sent r.1
    = Server.sent Scenario.s0
      ++ [(1%nat, download_request (Some "d2") (Some remote_path))]
  ∧ Server.get_download_status "d2" r.1
    = Some {| Server.d_download_id := "d2"; Server.d_client_id := "site-7";
              Server.d_file_path :=
                Scenario.join "downloads"
                  (Server.local_filename "site-7" Scenario.t0);
              Server.d_remote_path := remote_path;
              Server.d_status := Server.downloading;
              Server.d_started_at := Scenario.t1;
              Server.d_chunks_received := Some 0;
              Server.d_completed_at := None; Server.d_total_size := None;
              Server.d_error := None |}
  ∧ (∀ k, k ≠ "d2" →
       Server.get_download_status k r.1
       = Server.get_download_status k Scenario.s0)
  ∧ Server.connected_clients r.1 = Server.connected_clients Scenario.s0
  ∧ Server.files r.1 = Server.files Scenario.s0.
Proof.
  apply (dispatch_registered Scenario.join "downloads" "site-7" None "d2"
           Scenario.t0 Scenario.t1 Scenario.s0 1%nat);
    [discriminate | reflexivity | apply not_elem_of_empty].
Defined.

Lemma registration_last_wins_witness :
  let r := Server.on_message Scenario.t0 (register (Some "site-7")) Scenario.c2
             Scenario.s0 in
  let d := Server.trigger_download Scenario.join "downloads" (Some "site-7")
             (Some "$HOME/report.csv") "d2" Scenario.t0 Scenario.t1 r.1.2 in
  r.2 = None
  ∧ Server.sent r.1.2
    = Server.sent Scenario.s0
      ++ [(Server.ws Scenario.c2, registered "Successfully registered")]
  ∧ (∀ other, other ≠ Some "site-7" →
       Server.connected_clients r.1.2 !! other
       = Server.connected_clients Scenario.s0 !! other)
  ∧ Server.resp_status d.2 = 200
  ∧ last (Server.sent d.1)
    = Some (Server.ws Scenario.c2,
            download_request (Some "d2")
              (Some (default "$HOME/file_to_download.txt"
                       (Some "$HOME/report.csv")))).
Proof.
  apply (registration_last_wins Scenario.join "downloads" Scenario.t0 "site-7"
           Scenario.c2 Scenario.s0 (Some "$HOME/report.csv") "d2"
           Scenario.t0 Scenario.t1);
    [discriminate | apply not_elem_of_empty].
Defined.

Lemma empty_identity_never_removed_witness :
  let s' := (Server.websocket_handler 2
               ((Scenario.t0, register (Some ""))
                :: [(Scenario.t1, other (Some "hello"))]) Scenario.s0).1 in
  Server.connected_clients s' !! Some "" = Some 2%nat
  ∧ 2%nat ∈ Server.closed s'
  ∧ (Server.trigger_download Scenario.join "downloads" (Some "") None "d2"
       Scenario.t0 Scenario.t1 s').2 = Server.MissingField.
Proof.
  apply (empty_identity_never_removed Scenario.join "downloads" 2%nat
           Scenario.t0 [(Scenario.t1, other (Some "hello"))] Scenario.s0 None
           "d2" Scenario.t0 Scenario.t1);
    [apply not_elem_of_empty |].
  repeat constructor. intros client_id. discriminate.
Defined.

Lemma earlier_identity_stays_witness :
  let s' := (Server.websocket_handler 2
               ((Scenario.t0, register (Some "site-8"))
                :: (Scenario.t1, register (Some "site-9")) :: []) Scenario.s0).1 in
  Server.connected_clients s' !! Some "site-8" = Some 2%nat
  ∧ Server.connected_clients s' !! Some "site-9" = None
  ∧ 2%nat ∈ Server.closed s'.
Proof.
  apply (earlier_identity_stays 2%nat Scenario.t0 Scenario.t1 (Some "site-8")
           (Some "site-9") [] Scenario.s0);
    [apply not_elem_of_empty | discriminate | reflexivity | constructor].
Defined.

Lemma health_after_dispatch_witness :
  Server.health_check
    (Server.trigger_download Scenario.join "downloads" (Some "site-7") None
       "d2" Scenario.t0 Scenario.t1 Scenario.s0).1
  = ((Server.health_check Scenario.s0).1, S (Server.health_check Scenario.s0).2).
Proof.
  apply health_after_dispatch;
    [discriminate | by exists 1%nat | reflexivity].
Defined.

Lemma health_after_signal_witness :
  let h := Server.health_check Scenario.s0 in
  let h1 := Server.health_check
              (Server.handle_file_complete Scenario.t1 (Some "d1") (Some 5)
                 Scenario.s0).1 in
  let h2 := Server.health_check
              (Server.handle_client_error (Some "d1") (Some "disk error")
                 Scenario.s0).1 in
  h1.1 = h.1 ∧ S h1.2 = h.2 ∧ h2.1 = h.1 ∧ S h2.2 = h.2.
Proof.
  apply (health_after_signal Scenario.t1 "d1" Scenario.info0 (Some 5)
           (Some "disk error") Scenario.s0); reflexivity.
Defined.

Example health_check_scenario :
  Server.health_check Scenario.s0 = (1%nat, 1%nat)
  ∧ Server.health_check Scenario.s_completed = (1%nat, 0%nat)
  ∧ Server.list_clients Scenario.s0 = [Some "site-7"].
Proof. repeat split; reflexivity. Qed.

Lemma listed_iff_dispatchable_witness :
  NoDup (Server.list_clients Scenario.s0)
  ∧ length (Server.list_clients Scenario.s0)
    = (Server.health_check Scenario.s0).1
  ∧ (Some "site-7" ∈ Server.list_clients Scenario.s0
     ↔ (Server.trigger_download Scenario.join "downloads" (Some "site-7") None
          "d2" Scenario.t0 Scenario.t1 Scenario.s0).2
       ≠ Server.ClientNotConnected "site-7").
Proof. apply listed_iff_dispatchable. discriminate. Defined.

Lemma poll_stops_at_first_final_witness :
  Server.poll_download_status
    [Server.reply_other; Server.reply_200 Scenario.info0]
  = (Server.polling, length [Server.reply_other; Server.reply_200 Scenario.info0])
  ∧ ∀ r outcome post,
      reply_final r = Some outcome →
      Server.poll_download_status
        ([Server.reply_other; Server.reply_200 Scenario.info0] ++ r :: post)
      = (outcome, length [Server.reply_other; Server.reply_200 Scenario.info0]).
Proof.
  apply (poll_stops_at_first_final
           [Server.reply_other; Server.reply_200 Scenario.info0]).
  repeat constructor.
Defined.

Example poll_scenario :
  Server.poll_download_status
    [Server.reply_of "d1" Scenario.s0; Server.reply_of "d1" Scenario.s0;
     Server.reply_of "d1" Scenario.s_completed;
     Server.reply_of "d1" Scenario.s_failed]
  = (Server.poll_completed Scenario.info_completed, 2%nat).
Proof. reflexivity. Qed.

Lemma interrupted_transfer_stays_downloading_witness :
  ∃ s' d,
    Server.websocket_handler 1
      ((λ m, (Scenario.t0, m))
         <$> chunk_msgs (Some "d1") 3 0 [["a"; "b"]; ["c"; "d"]]%byte)
      Scenario.s0 = (s', None)
    ∧ Server.get_download_status "d1" s' = Some d
    ∧ Server.d_status d = Server.downloading
    ∧ ∀ n, Server.poll_download_status (replicate n (Server.reply_of "d1" s'))
           = (Server.polling, n).
Proof.
  apply (interrupted_transfer_stays_downloading 1
           ((λ m, (Scenario.t0, m))
              <$> chunk_msgs (Some "d1") 3 0 [["a"; "b"]; ["c"; "d"]]%byte)
           3 [["a"; "b"]; ["c"; "d"]]%byte "d1" Scenario.info0 Scenario.s0);
    reflexivity.
Defined.

Lemma dispatch_then_transfer_witness :
  let r := Server.trigger_download Scenario.join "downloads" (Some "site-7")
             (Some "/home/u/report.csv") "d2" Scenario.t0 Scenario.t1
             Scenario.s0 in
  let dest := Scenario.join "downloads"
                (Server.local_filename "site-7" Scenario.t0) in
  last (Server.sent r.1)
  = Some (1%nat, download_request (Some "d2") (Some "/home/u/report.csv"))
  ∧ ∃ ms,
      Client.handle_download_request (λ p, p) (λ p, p) 2 Scenario.disk0 (Some "d2")
        (Some "/home/u/report.csv") = (ms, None)
      ∧ ∀ tms : list (Server.datetime * msg), tms.*2 = ms →
          ∃ s' d,
            Server.message_loop tms Scenario.c1 r.1 = (Scenario.c1, s', None)
            ∧ Server.get_download_status "d2" s' = Some d
            ∧ Server.d_status d = Server.completed
            ∧ Server.d_total_size d
              = Some (Z.of_nat (length ["a"; "b"; "c"; "d"; "e"]%byte))
            ∧ Server.d_file_path d = dest
            ∧ default [] (Server.files s' !! dest)
              = default [] (Server.files Scenario.s0 !! dest)
                ++ ["a"; "b"; "c"; "d"; "e"]%byte
            ∧ Server.poll_download_status [Server.reply_of "d2" s']
              = (Server.poll_completed d, 0%nat).
Proof.
  apply (dispatch_then_transfer Scenario.join "downloads" (λ p, p) (λ p, p) 2
           Scenario.disk0 "site-7" "/home/u/report.csv"
           ["a"; "b"; "c"; "d"; "e"]%byte "d2" Scenario.t0 Scenario.t1
           Scenario.s0 1%nat Scenario.c1);
    [discriminate | reflexivity | apply not_elem_of_empty | reflexivity | lia].
Defined.

Lemma destination_names_differ_by_second_witness :
  Server.local_filename "site-7" Scenario.t0
  = Server.local_filename "site-7" Scenario.t1
  ↔ same_second Scenario.t0 Scenario.t1.
Proof.
  apply destination_names_differ_by_second;
    unfold in_range; simpl; lia.
Defined.

(** ** Two invariants of the table of downloads *)

(** X28. After the transfer of a file with a chunk size of at least 1 for
    a download that had received no chunk, [chunks_received] is the
    [total_chunks] that the client computed and announced in every
    chunk. *)
Theorem chunks_received_after_transfer path_str chunk_size disk path content k info s c :
  disk !! path_str path = Some (Client.regular content) →
  1 ≤ chunk_size →
  Server.downloads s !! k = Some info →
  Server.d_chunks_received info = Some 0 →
  ∃ ms,
    Client.send_file path_str chunk_size disk (Some k) path = (ms, None)
    ∧ ∀ tms : list (Server.datetime * msg), tms.*2 = ms →
        ∃ s' d,
          Server.message_loop tms c s = (c, s', None)
          ∧ Server.downloads s' !! k = Some d
          ∧ Server.d_chunks_received d
            = Some (Client.total_chunks (Z.of_nat (length content)) chunk_size).
Proof.
  intros Hdisk Hcs Hk Hzero. unfold Client.send_file. rewrite Hdisk.
  destruct (chunk_size =? 0) eqn:E; [apply Z.eqb_eq in E; lia|]. clear E.
  cbn zeta. cbn [Client.st_size].
  set (total := Client.total_chunks (Z.of_nat (length content)) chunk_size).
  destruct (send_loop_chunks chunk_size (Some k) total content 0 0
              ltac:(lia) ltac:(lia)) as (chunks & Hloop & Hconcat).
  destruct (send_loop_indexed chunk_size (Some k) total content 0 0
              ltac:(lia)) as (ms' & Hloop' & _).
  rewrite Hloop in Hloop'.
  assert (Hcount : Z.of_nat (length chunks) = total)
    by (injection Hloop'; intros; subst total; lia).
  clear Hloop'. rewrite Hloop.
  eexists. split; [reflexivity|]. intros tms Htms.
  apply fmap_app_inv in Htms as (tms1 & tms2 & Htms1 & Htms2 & ->).
  destruct tms2 as [|[now m] [|? ?]]; try discriminate.
  simpl in Htms2. inversion Htms2 as [Hm]. clear Htms2.
  destruct (message_loop_chunks chunks tms1 total 0 c s k info Hk
              (eq_sym Htms1)) as (s1 & Hrun & (_ & _ & _ & _ & Hd & _)).
  rewrite (message_loop_app _ _ _ _ _ _ Hrun). subst m. simpl.
  unfold Server.handle_file_complete.
  rewrite (lookup_download_Some _ _ _ Hd). simpl.
  eexists _, _. split; [reflexivity|]. simpl. rewrite lookup_insert_eq.
  split; [reflexivity|]. simpl.
  destruct chunks as [|ch chunks]; simpl in *.
  - rewrite Hzero. f_equal. lia.
  - f_equal. lia.
Qed.

Lemma chunks_received_after_transfer_witness :
  ∃ ms,
    Client.send_file (λ p, p) 2 Scenario.disk0 (Some "d1") "/home/u/report.csv"
    = (ms, None)
    ∧ ∀ tms : list (Server.datetime * msg), tms.*2 = ms →
        ∃ s' d,
          Server.message_loop tms Scenario.c1 Scenario.s0
          = (Scenario.c1, s', None)
          ∧ Server.downloads s' !! "d1" = Some d
          ∧ Server.d_chunks_received d
            = Some (Client.total_chunks
                      (Z.of_nat (length ["a"; "b"; "c"; "d"; "e"]%byte)) 2).
Proof.
  apply (chunks_received_after_transfer (λ p, p) 2 Scenario.disk0
           "/home/u/report.csv" ["a"; "b"; "c"; "d"; "e"]%byte "d1"
           Scenario.info0 Scenario.s0 Scenario.c1); [reflexivity | lia | reflexivity | reflexivity].
Defined.

Lemma on_message_keys now m c s k :
  is_Some (Server.downloads (Server.on_message now m c s).1.2 !! k) →
  is_Some (Server.downloads s !! k).
Proof.
  assert (Hup : ∀ k' (d : Server.download_info),
            is_Some (Server.downloads s !! k') →
            is_Some (<[k' := d]> (Server.downloads s) !! k) →
            is_Some (Server.downloads s !! k)).
  { intros k' d Hk'. destruct (decide (k' = k)) as [->|Hne].
    - done.
    - by rewrite lookup_insert_ne. }
  assert (Hlook : ∀ (id : ident) k' info,
            Server.lookup_download id s = inr (Some (k', info)) →
            is_Some (Server.downloads s !! k')).
  { intros id k' info H. apply lookup_download_found in H. by rewrite H. }
  destruct m as [cid| | |id n t dat|id sz t|id e| | |]; simpl; try done.
  - unfold Server.send_json. simpl. by case_decide.
  - unfold Server.handle_file_chunk.
    destruct (Server.lookup_download id s) as [e0|[[k' info]|]] eqn:E;
      [done| |done].
    destruct dat as [dat|]; [|done].
    destruct (encode_latin1 dat); [|done]. simpl. eauto.
  - unfold Server.handle_file_complete.
    destruct (Server.lookup_download id s) as [e0|[[k' info]|]] eqn:E;
      [done| |done].
    destruct sz; simpl; eauto.
  - unfold Server.handle_client_error.
    destruct (Server.lookup_download id s) as [e0|[[k' info]|]] eqn:E;
      [done| |done].
    simpl. eauto.
Qed.

(** X29. Every record is filed under its own [download_id]: when this
    holds of the table, it still holds after a dispatch and after all the
    messages and the end of a connection. *)
Theorem download_ids_consistent path_join download_dir client_id remote uuid
    now1 now2 ws tms s :
  (∀ k d, Server.downloads s !! k = Some d → Server.d_download_id d = k) →
  (∀ k d,
     Server.downloads
       (Server.trigger_download path_join download_dir client_id remote uuid
          now1 now2 s).1 !! k = Some d →
     Server.d_download_id d = k)
  ∧ (∀ k d,
       Server.downloads (Server.websocket_handler ws tms s).1 !! k = Some d →
       Server.d_download_id d = k).
Proof.
  intros Hinv. split.
  - intros k d. unfold Server.trigger_download.
    destruct (Server.truthy client_id); simpl; [|apply Hinv].
    destruct (Server.connected_clients s !! client_id) as [w|]; [|apply Hinv].
    unfold Server.send_json. simpl.
    case_decide; simpl;
      (destruct (decide (uuid = k)) as [->|Hne];
       [rewrite lookup_insert_eq; by intros [= <-]
       |rewrite lookup_insert_ne by done; apply Hinv]).
  - unfold Server.websocket_handler.
    generalize {| Server.ws := ws; Server.client_id := None |}.
    revert s Hinv. induction tms as [|[now m] tms IH]; intros s Hinv c k d; simpl.
    + apply Hinv.
    + assert (Hinv1 : ∀ k d,
                Server.downloads (Server.on_message now m c s).1.2 !! k = Some d →
                Server.d_download_id d = k).
      { intros k1 d1 Hd1.
        destruct (on_message_keys now m c s k1 ltac:(by eexists)) as [d0 Hd0].
        destruct (on_message_record now m c s k1 d0 Hd0) as (d' & Hd' & Hsame).
        rewrite Hd1 in Hd'. inversion Hd'; subst.
        destruct Hsame as [-> _]. by apply Hinv. }
      destruct (Server.on_message now m c s) as [[c1 s1] [e|]]; simpl in *.
      * apply Hinv1.
      * apply (IH s1 Hinv1 c1).
Qed.

Lemma download_ids_consistent_witness :
  (∀ k d,
     Server.downloads
       (Server.trigger_download Scenario.join "downloads" (Some "site-7") None
          "d2" Scenario.t0 Scenario.t1 Scenario.s0).1 !! k = Some d →
     Server.d_download_id d = k)
  ∧ (∀ k d,
       Server.downloads
         (Server.websocket_handler 1
            ((λ m, (Scenario.t0, m)) <$> Scenario.sent0) Scenario.s0).1 !! k
       = Some d →
       Server.d_download_id d = k).
Proof.
  apply download_ids_consistent.
  intros k d. unfold Scenario.s0. simpl. intros H.
  apply lookup_singleton_Some in H as [<- <-]. reflexivity.
Defined.
